(** * arduino-dsmr: the message parsing core (src/dsmr/parser.h)

    A shallow embedding of the P1 telegram parser and the properties of
    its framing, checksum, OBIS id, string envelope and line dispatch
    code.

    Conventions of the embedding.
    - A [const char *] into the telegram is an offset ([nat]) into one
      buffer [list ascii]; the function that receives [(str, n)] receives
      the buffer whose length is [n], and [str] is offset 0.  A pointer
      that may be [NULL] is an [option nat].
    - [uint8_t] and [uint16_t] values are [Z] with the wrap-around
      written out.
    - A [while] loop over the buffer is a [Fixpoint] on the distance
      between the cursor and [end], which is the loop's variant.
    - The object behind [ParsedData<Ts...> *data] is a value of a type
      [D] that is threaded through every call that may write to it. *)

From Stdlib Require Import ZArith Lia Ascii String.
From stdpp Require Import base list strings gmap.

Local Open Scope string_scope.
Local Open Scope list_scope.
Local Open Scope nat_scope.

(** ** Buffers and characters *)

(** [*p] for a pointer [p] inside the buffer.  The source guards every
    dereference by a comparison with [end]; outside the buffer the
    embedding reads NUL. *)
Definition deref (buf : list ascii) (p : nat) : ascii :=
  default zero (buf !! p).

(** The value of a [char] converted to [uint8_t]. *)
Definition code (c : ascii) : Z := Z.of_N (N_of_ascii c).

(** [c >= lo && c <= hi] on characters. *)
Definition in_range (lo hi c : ascii) : bool :=
  (code lo <=? code c)%Z && (code c <=? code hi)%Z.

Definition chars (s : string) : list ascii := list_ascii_of_string s.

(** ** util.h: ParseResult and ObisId *)

(** Modelled from the spec: [ParseResult<T>] is declared in util.h, which
    is not among the sources.  It carries the decoded value, the cursor
    [next], the error message [err] (absent on success) and the position
    [ctx] the error is reported at; [fail] records message and position
    ([fail(msg)] with no position records none), [until] sets the cursor
    and [succeed] stores the value.  A fresh result has no error and no
    cursor. *)
Record ParseResult (T : Type) : Type := mkParseResult {
  result : T;
  next : option nat;
  err : option string;
  ctx : option nat
}.
Arguments mkParseResult {T} _ _ _ _.
Arguments result {T} _.
Arguments next {T} _.
Arguments err {T} _.
Arguments ctx {T} _.

Definition fresh {T} (dflt : T) : ParseResult T :=
  mkParseResult dflt None None None.

Definition fail {T} (res : ParseResult T) (msg : string) (where_ : option nat)
  : ParseResult T :=
  mkParseResult (result res) (next res) (Some msg) where_.

Definition until {T} (res : ParseResult T) (p : nat) : ParseResult T :=
  mkParseResult (result res) (Some p) (err res) (ctx res).

Definition succeed {T} (res : ParseResult T) (v : T) : ParseResult T :=
  mkParseResult v (next res) (err res) (ctx res).

Definition set_next {T} (res : ParseResult T) (p : option nat) : ParseResult T :=
  mkParseResult (result res) p (err res) (ctx res).

(** The converting constructor [ParseResult<void>(const ParseResult<T2>&)]:
    cursor, error and position are copied, the value is dropped. *)
Definition to_void {T} (res : ParseResult T) : ParseResult unit :=
  mkParseResult tt (next res) (err res) (ctx res).

(** [if (res.err)]. *)
Definition failed {T} (res : ParseResult T) : bool :=
  match err res with Some _ => true | None => false end.

(** Modelled from the spec: [ObisId] is declared in util.h.  Six ordered
    byte components [v[0..5]], compared component-wise; a fresh id is all
    zeros. *)
Abbreviation ObisId := (list Z).

Definition ObisId_zero : ObisId := [0; 0; 0; 0; 0; 0]%Z.

(** [id.v[part]] and [id.v[part] = x]. *)
Definition v_get (id : ObisId) (part : nat) : Z := default 0%Z (id !! part).
Definition v_set (id : ObisId) (part : nat) (x : Z) : ObisId := <[part := x]> id.

(** ** util/crc16.h *)

(** Modelled from the spec: [_crc16_update] comes from the AVR C library
    header <util/crc16.h>: the CRC-16 update that folds one byte into the
    running value (xor the byte in, then eight shift steps with the
    reflected polynomial 0xA001). *)
Definition crc16_shift (crc : Z) : Z :=
  if Z.testbit crc 0 then Z.lxor (Z.shiftr crc 1) 0xA001 else Z.shiftr crc 1.

Definition _crc16_update (crc : Z) (a : Z) : Z :=
  let crc := Z.lxor crc a in
  Nat.iter 8 crc16_shift crc.

(** The running value after folding a sequence of bytes, left to right. *)
Definition crc16_fold (seed : Z) (bytes : list ascii) : Z :=
  fold_left (fun crc c => _crc16_update crc (code c)) bytes seed.

(** ** The C library's strtoul, base 16 *)

(** [isspace] of the C locale. *)
Definition isspace (c : ascii) : bool :=
  bool_decide (c = " "%char) || in_range "009" "013" c.

(** The value of a digit character below base 16, as strtoul reads it. *)
Definition hexval (c : ascii) : option Z :=
  if in_range "0" "9" c then Some (code c - code "0"%char)%Z
  else if in_range "A" "F" c then Some (code c - code "A"%char + 10)%Z
  else if in_range "a" "f" c then Some (code c - code "a"%char + 10)%Z
  else None.

(** The characters of a C string: everything before the first NUL. *)
Fixpoint cstring (s : list ascii) : list ascii :=
  match s with
  | [] => []
  | c :: s' => if bool_decide (c = zero) then [] else c :: cstring s'
  end.

Fixpoint skip_space (s : list ascii) (i : nat) : list ascii * nat :=
  match s with
  | c :: s' => if isspace c then skip_space s' (S i) else (s, i)
  | [] => ([], i)
  end.

Fixpoint hex_digits (s : list ascii) (acc : Z) (count : nat) : Z * nat :=
  match s with
  | c :: s' =>
      match hexval c with
      | Some d => hex_digits s' (acc * 16 + d)%Z (S count)
      | None => (acc, count)
      end
  | [] => (acc, count)
  end.

(** [strtoul(s, &endp, 16)], the C library function as the C standard
    defines it, on a NUL-terminated string of at most eight characters
    (no overflow of [unsigned long] can occur): white space is skipped,
    an optional sign and an optional [0x]/[0X] prefix are accepted, then
    the longest run of hexadecimal digits is converted.
    Returns the value as an [unsigned long] (32 bits on AVR; negation
    wraps) and the offset [endp - s].  When no digit follows the prefix
    the leading [0] alone is the number; when there is no number at all
    [endp] is [s]. *)
Definition strtoul16 (s : list ascii) : Z * nat :=
  let '(s1, i1) := skip_space (cstring s) 0 in
  let '(neg, s2, i2) :=
    match s1 with
    | "-"%char :: s' => (true, s', S i1)
    | "+"%char :: s' => (false, s', S i1)
    | _ => (false, s1, i1)
    end in
  let finish (acc : Z) := if neg then ((- acc) mod 2 ^ 32)%Z else acc in
  let plain :=
    let '(acc, count) := hex_digits s2 0%Z 0 in
    match count with
    | 0 => (0%Z, 0)
    | _ => (finish acc, i2 + count)
    end in
  match s2 with
  | "0"%char :: x :: s3 =>
      if bool_decide (x = "x"%char) || bool_decide (x = "X"%char) then
        let '(acc, count) := hex_digits s3 0%Z 0 in
        match count with
        | 0 => (0%Z, S i2)
        | _ => (finish acc, i2 + 2 + count)
        end
      else plain
  | _ => plain
  end.

(** Modelled from the spec: [concat_hack(s, append, n)] is defined in
    util.h.  It appends the [n] characters starting at [append] to the
    string, verbatim (no escaping, no decoding). *)
Definition concat_hack (s : list ascii) (buf : list ascii) (append n : nat)
  : list ascii :=
  s ++ take n (drop append buf).

(** ** StringParser *)

Module StringParser.

(** [while (str_end < end && *str_end != ')') ++str_end;] with
    [fuel = end - str_end]. *)
Fixpoint find_close (buf : list ascii) (fuel str_end : nat) : nat :=
  match fuel with
  | 0 => str_end
  | S fuel' =>
      if bool_decide (deref buf str_end = ")"%char) then str_end
      else find_close buf fuel' (S str_end)
  end.

Definition parse_string (min max : nat) (buf : list ascii) (str end_ : nat)
  : ParseResult (list ascii) :=
  let res := fresh [] in
  if bool_decide (end_ ≤ str) || negb (bool_decide (deref buf str = "("%char)) then
    fail res "Missing (" (Some str)
  else
    let str_start := str + 1 in
    let str_end := find_close buf (end_ - str_start) str_start in
    if bool_decide (str_end = end_) then
      fail res "Missing )" (Some str)
    else
      let len := str_end - str_start in
      if bool_decide (len < min) || bool_decide (max < len) then
        fail res "Invalid string length" (Some str)
      else
        until (succeed res (concat_hack (result res) buf str_start len))
              (str_end + 1).

End StringParser.

(** ** ObisIdParser *)

Module ObisIdParser.

(** What one turn of the scanning loop does with the character [c]:
    return the overflow failure, consume [c] (with the updated id and
    component index), or [break]. *)
Inductive Step : Type :=
| Overflow
| Consume (id : ObisId) (part : nat)
| Stop.

Definition step (c : ascii) (id : ObisId) (part : nat) : Step :=
  if in_range "0" "9" c then
    let digit := (code c - code "0"%char)%Z in
    if (25 <? v_get id part)%Z || ((v_get id part =? 25)%Z && (5 <? digit)%Z) then
      Overflow
    else
      Consume (v_set id part ((v_get id part * 10 + digit) mod 256)%Z) part
  else if bool_decide (part = 0) && bool_decide (c = "-"%char) then
    Consume id (S part)
  else if bool_decide (part = 1) && bool_decide (c = ":"%char) then
    Consume id (S part)
  else if bool_decide (1 < part) && bool_decide (part < 5)
          && bool_decide (c = "."%char) then
    Consume id (S part)
  else
    Stop.

(** The state of the scan: the id built so far, the component index and
    the cursor [res.next]. *)
Inductive Scan : Type :=
| Over (id : ObisId) (next_ : nat)
| Stopped (id : ObisId) (part : nat) (next_ : nat).

(** [while (res.next < end) { ... ++res.next; }] with
    [fuel = end - res.next]. *)
Fixpoint scan (buf : list ascii) (fuel : nat) (id : ObisId) (part next_ : nat)
  : Scan :=
  match fuel with
  | 0 => Stopped id part next_
  | S fuel' =>
      match step (deref buf next_) id part with
      | Overflow => Over id next_
      | Consume id' part' => scan buf fuel' id' part' (S next_)
      | Stop => Stopped id part next_
      end
  end.

(** [for (++part; part < 6; ++part) id.v[part] = 255;] *)
Definition fill_rest (id : ObisId) (part : nat) : ObisId :=
  fold_left (fun id p => v_set id p 255%Z) (seq (S part) (6 - S part)) id.

(** Parse a Obis ID of the form 1-2:3.4.5.6.  Stops parsing on the first
    unrecognized character.  Any unparsed parts are set to 255. *)
Definition parse (buf : list ascii) (str end_ : nat) : ParseResult ObisId :=
  let res := set_next (fresh ObisId_zero) (Some str) in
  match scan buf (end_ - str) ObisId_zero 0 str with
  | Over id next_ =>
      fail (until (succeed res id) next_) "Obis ID has number over 255" (Some str)
  | Stopped id part next_ =>
      let res := until (succeed res id) next_ in
      if bool_decide (next_ = str) then
        fail res "OBIS id Empty" (Some str)
      else
        succeed res (fill_rest id part)
  end.

End ObisIdParser.

(** ** CrcParser *)

Module CrcParser.

Definition CRC_LEN : nat := 4.

(** Parse a crc value. [str] must point to the first of the four hex
    bytes in the CRC.  The [uint16_t] of a fresh result, which the
    source leaves uninitialised, is 0 here; it is never read on failure. *)
Definition parse (buf : list ascii) (str end_ : nat) : ParseResult Z :=
  let res := fresh 0%Z in
  if bool_decide (end_ < str + CRC_LEN) then
    fail res "No checksum found" (Some str)
  else
    (* memcpy(buf, str, CRC_LEN); buf[CRC_LEN] = 0 *)
    let tmp := map (fun i => deref buf (str + i)) (seq 0 CRC_LEN) ++ [zero] in
    let '(value, endp) := strtoul16 tmp in
    let check := (value mod 2 ^ 16)%Z in
    if negb (bool_decide (endp = CRC_LEN)) then
      fail res "Incomplete or malformed checksum" (Some str)
    else
      succeed (set_next res (Some (str + CRC_LEN))) check.

End CrcParser.

(** ** ParsedData: the field registry *)

(** A field class [T] of [ParsedData<T, Ts...>]: its static [T::id] and
    its [T::parse(str, end)], which may write to the field's members.
    The fields are base classes of the one [ParsedData] object, so a
    field's parse routine is a function on the state [D] of that
    object. *)
Record Field (D : Type) : Type := mkField {
  field_id : ObisId;
  field_parse : list ascii → nat → nat → D → ParseResult unit * D
}.
Arguments mkField {D} _ _.
Arguments field_id {D} _.
Arguments field_parse {D} _ _ _ _ _.

(** [ObisId(255, 255, 255, 255, 255, 255)], the id the identification
    line is offered under. *)
Definition ident_id : ObisId := [255; 255; 255; 255; 255; 255]%Z.

Module ParsedData.
Section Registry.
Context {D : Type}.

(** The recursion over the template parameter pack: the base case
    [ParsedData<>] reports that nothing was parsed, the general case
    calls the first field whose id is equal. *)
Fixpoint parse_line (fields : list (Field D)) (id : ObisId)
    (buf : list ascii) (str end_ : nat) (data : D) : ParseResult unit * D :=
  match fields with
  | [] => (until (fresh tt) str, data)
  | T :: Ts =>
      if bool_decide (id = field_id T) then field_parse T buf str end_ data
      else parse_line Ts id buf str end_ data
  end.

End Registry.
End ParsedData.

(** ** P1Parser *)

(** A loop that may [return] from the function: [Return r] is the early
    exit, [Done s] the state the loop is left with. *)
Inductive LoopExit (R St : Type) : Type :=
| Return (r : R)
| Done (s : St).
Arguments Return {R St} _.
Arguments Done {R St} _.

Definition is_eol (c : ascii) : bool :=
  bool_decide (c = "013"%char) || bool_decide (c = "010"%char).

Module P1Parser.
Section Registry.
Context {D : Type}.

Definition parse_line (fields : list (Field D)) (buf : list ascii)
    (line end_ : nat) (data : D) : ParseResult unit * D :=
  let res := fresh tt in
  if bool_decide (line = end_) then (res, data)
  else
    let idres := ObisIdParser.parse buf line end_ in
    if failed idres then (to_void idres, data)
    else
      match next idres with
      | None => (to_void idres, data) (* ObisIdParser::parse always sets next *)
      | Some idnext =>
          let '(datares, data) :=
            ParsedData.parse_line fields (result idres) buf idnext end_ data in
          if failed datares then (datares, data)
          else if negb (bool_decide (next datares = Some idnext))
                  && negb (bool_decide (next datares = Some end_)) then
            (fail res "Trailing characters on data line" (next datares), data)
          else (until res end_, data)
      end.

(** The first loop of [parse_data] ("Parse ID line"), with
    [fuel = end - line_end].  It leaves [(line_start, line_end)] and the
    registry. *)
Fixpoint id_line (fields : list (Field D)) (buf : list ascii) (fuel : nat)
    (line_start line_end : nat) (data : D)
  : LoopExit (ParseResult unit * D) (nat * nat * D) :=
  match fuel with
  | 0 => Done (line_start, line_end, data)
  | S fuel' =>
      if is_eol (deref buf line_end) then
        if bool_decide (line_end ≤ line_start + 3)
           || (negb (bool_decide (deref buf (line_start + 3) = "5"%char))
               && negb (bool_decide (deref buf (line_start + 3) = "3"%char))) then
          Return (fail (fresh tt) "Invalid identification string" (Some line_start),
                  data)
        else
          let '(tmp, data) :=
            ParsedData.parse_line fields ident_id buf line_start line_end data in
          if failed tmp then Return (tmp, data)
          else Done (S line_end, S line_end, data)
      else id_line fields buf fuel' line_start (S line_end) data
  end.

(** The second loop of [parse_data] ("Parse data lines"), with
    [fuel = end - line_end]. *)
Fixpoint data_lines (fields : list (Field D)) (buf : list ascii) (fuel : nat)
    (line_start line_end : nat) (data : D)
  : LoopExit (ParseResult unit * D) (nat * nat * D) :=
  match fuel with
  | 0 => Done (line_start, line_end, data)
  | S fuel' =>
      if is_eol (deref buf line_end) then
        let '(tmp, data) := parse_line fields buf line_start line_end data in
        if failed tmp then Return (tmp, data)
        else data_lines fields buf fuel' (line_end + 1) (S line_end) data
      else data_lines fields buf fuel' line_start (S line_end) data
  end.

(** Parse the data part of a message.  [str] points to the first
    character after the leading /, [end_] to the ! before the checksum.
    Does not verify the checksum. *)
Definition parse_data (fields : list (Field D)) (buf : list ascii)
    (str end_ : nat) (data : D) : ParseResult unit * D :=
  let res := fresh tt in
  match id_line fields buf (end_ - str) str str data with
  | Return r => r
  | Done (line_start, line_end, data) =>
      match data_lines fields buf (end_ - line_end) line_start line_end data with
      | Return r => r
      | Done (line_start, line_end, data) =>
          if negb (bool_decide (line_end = line_start)) then
            (fail res "Last dataline not CRLF terminated" (Some line_start), data)
          else (res, data)
      end
  end.

(** [while (data_end < str + n && *data_end != '!')], folding every byte
    it passes into the CRC; [fuel = str + n - data_end]. *)
Fixpoint find_end (buf : list ascii) (fuel : nat) (crc : Z) (data_end : nat)
  : Z * nat :=
  match fuel with
  | 0 => (crc, data_end)
  | S fuel' =>
      if bool_decide (deref buf data_end = "!"%char) then (crc, data_end)
      else find_end buf fuel' (_crc16_update crc (code (deref buf data_end)))
                    (S data_end)
  end.

(** Parse a complete P1 telegram: the [n = length buf] characters at
    [str], which is offset 0. *)
Definition parse (fields : list (Field D)) (data : D) (buf : list ascii)
  : ParseResult unit * D :=
  let str := 0 in
  let n := length buf in
  let res := fresh tt in
  if bool_decide (n = 0) || negb (bool_decide (deref buf str = "/"%char)) then
    (fail res "Data should start with /" (Some str), data)
  else
    let data_start := str + 1 in
    let '(crc, data_end) :=
      find_end buf (str + n - data_start)
               (_crc16_update 0 (code (deref buf str))) data_start in
    if bool_decide (str + n ≤ data_end) then
      (fail res "No checksum found" None, data)
    else
      let crc := _crc16_update crc (code (deref buf data_end)) in
      let check_res := CrcParser.parse buf (data_end + 1) (str + n) in
      if failed check_res then (to_void check_res, data)
      else if negb (bool_decide (result check_res = crc)) then
        (fail res "Checksum mismatch" (Some data_end), data)
      else
        let '(res, data) := parse_data fields buf data_start data_end data in
        (set_next res (next check_res), data).

End Registry.
End P1Parser.

(** ** A registry to run the parser on *)

(** Modelled from the spec: the field classes live in fields.h, which is
    not among the sources.  A text field pairs an id with a slot and
    decodes its value through the [StringParser] envelope with the
    field's length bounds, storing the payload when the envelope parses.
    The registry object is the map from a field's id to its slot. *)
Abbreviation TextData := (gmap (list Z) (list ascii)).

Definition text_field (id : ObisId) (min max : nat) : Field TextData :=
  mkField id (fun buf str end_ data =>
    let res := StringParser.parse_string min max buf str end_ in
    (to_void res, if failed res then data else <[id := result res]> data)).

(** CR LF, the line terminator of a telegram. *)
Definition nl : string := String "013" (String "010" EmptyString).

(** A registry of one text field, for the id 1-3:0.2.8, and telegrams to
    run it on: an identification line, the data line [1-3:0.2.8(50)],
    and then either nothing more or a last line [X] without a line
    terminator, up to and including the [!]. *)
Definition version_id : ObisId := [1; 3; 0; 2; 8; 255]%Z.

Definition version_only : list (Field TextData) := [text_field version_id 0 10].

Definition telegram_ok : list ascii :=
  chars ("/ISk5" ++ nl ++ "1-3:0.2.8(50)" ++ nl ++ "!").

Definition telegram_unterminated : list ascii :=
  chars ("/ISk5" ++ nl ++ "1-3:0.2.8(50)" ++ nl ++ "X!").

(** The same identification and data line, followed by a line that is
    no data line. *)
Definition telegram_bad_line : list ascii :=
  chars ("/ISk5" ++ nl ++ "1-3:0.2.8(50)" ++ nl ++ "(oops)" ++ nl ++ "!").

(** ** Reachable states of the OBIS id scan *)

(** The states [(id, part, res.next)] the scanning loop of
    [ObisIdParser::parse] passes through on the range [str, end_): the
    initial one, and the one after each consumed character. *)
Inductive reaches (buf : list ascii) (str end_ : nat)
  : ObisId → nat → nat → Prop :=
| reaches_start :
    reaches buf str end_ ObisId_zero 0 str
| reaches_consume id part pos id' part' :
    reaches buf str end_ id part pos →
    pos < end_ →
    ObisIdParser.step (deref buf pos) id part = ObisIdParser.Consume id' part' →
    reaches buf str end_ id' part' (S pos).

(** Where the scan stops, the parse returns: with the cursor on the
    first unconsumed character, and with an error only if that is the
    start of the range. *)
Definition stops_at (buf : list ascii) (str end_ : nat) (id : ObisId)
    (part pos : nat) : Prop :=
  let r := ObisIdParser.parse buf str end_ in
  next r = Some pos
  ∧ (pos ≠ str → err r = None ∧ result r = ObisIdParser.fill_rest id part)
  ∧ (pos = str → err r = Some "OBIS id Empty" ∧ ctx r = Some str).

(** The registry a loop of [parse_data] leaves or returns with. *)
Definition exit_data {D : Type}
    (x : LoopExit (ParseResult unit * D) (nat * nat * D)) : D :=
  match x with
  | Return (_, data) => data
  | Done (_, _, data) => data
  end.

(** The telegram's framing: it starts with [/] and its first [!] after
    that is at offset [e]. *)
Definition framed (buf : list ascii) (e : nat) : Prop :=
  buf !! 0 = Some "/"%char ∧ 0 < e ∧ buf !! e = Some "!"%char
  ∧ ∀ i, 0 < i < e → buf !! i ≠ Some "!"%char.

(** What [P1Parser::parse] does once the telegram is framed: decode the
    checksum after the [!], compare it with the CRC of the bytes from
    the [/] through the [!], and only then parse the payload. *)
Definition after_framing {D : Type} (fields : list (Field D)) (data : D)
    (buf : list ascii) (e : nat) : ParseResult unit * D :=
  let check_res := CrcParser.parse buf (e + 1) (length buf) in
  if failed check_res then (to_void check_res, data)
  else if negb (bool_decide (result check_res = crc16_fold 0 (take (S e) buf))) then
    (fail (fresh tt) "Checksum mismatch" (Some e), data)
  else
    let '(res, data') := P1Parser.parse_data fields buf 1 e data in
    (set_next res (next check_res), data').

(** A property [Inv] of the registry that the parse routine of every
    field preserves on this buffer, such as "this field is populated". *)
Definition preserved {D : Type} (Inv : D → Prop) (fields : list (Field D))
    (buf : list ascii) : Prop :=
  ∀ T str end_ data,
    T ∈ fields → Inv data → Inv (snd (field_parse T buf str end_ data)).

(** ** Texts, positions and lines, to state further properties *)

(** The text [text] stands in the buffer at offset [pos]. *)
Definition holds (buf : list ascii) (pos : nat) (text : list ascii) : Prop :=
  ∀ i c, text !! i = Some c → buf !! (pos + i) = Some c.

(** Decimal digits and the number a run of them spells. *)
Definition is_digit (c : ascii) : bool := in_range "0" "9" c.

Definition digit_value (c : ascii) : Z := (code c - code "0"%char)%Z.



(** The separator that follows component [part] in [a-b:c.d.e.f], and
    the text of an id given as the digit runs of its components,
    starting with component [part]. *)
Definition separator (part : nat) : ascii :=
  match part with
  | 0 => "-"%char
  | 1 => ":"%char
  | _ => "."%char
  end.



(** The hexadecimal digit of [d], in upper or lower case, and the four
    digits of a 16-bit value, most significant first. *)
Definition hex_char (upper : bool) (d : Z) : ascii :=
  ascii_of_N (Z.to_N (if (d <? 10)%Z then 48 + d
                      else if upper then 55 + d else 87 + d)%Z).

Definition hex4 (upper : bool) (v : Z) : list ascii :=
  [hex_char upper (v / 4096 mod 16); hex_char upper (v / 256 mod 16);
   hex_char upper (v / 16 mod 16); hex_char upper (v mod 16)]%Z.

(** [t] is the first line terminator of the range [str, end_). *)
Definition first_eol (buf : list ascii) (str end_ t : nat) : Prop :=
  str ≤ t < end_ ∧ is_eol (deref buf t) = true
  ∧ ∀ i, str ≤ i < t → is_eol (deref buf i) = false.

(** [P1Parser::parse_line] on one line after the other: the lines end at
    the offsets [ends], the first starts at [line_start], each later one
    just after the end of the one before.  The first error is returned. *)
Fixpoint fold_lines {D : Type} (fields : list (Field D)) (buf : list ascii)
    (line_start : nat) (ends : list nat) (data : D)
  : LoopExit (ParseResult unit * D) (nat * D) :=
  match ends with
  | [] => Done (line_start, data)
  | line_end :: ends' =>
      let '(tmp, data) := P1Parser.parse_line fields buf line_start line_end data in
      if failed tmp then Return (tmp, data)
      else fold_lines fields buf (line_end + 1) ends' data
  end.

(** Two buffers hold the same characters below offset [e]. *)
Definition agree (b1 b2 : list ascii) (e : nat) : Prop :=
  ∀ i, i < e → deref b1 i = deref b2 i.

(** The parse routines of the fields read the buffer only inside the
    range they are given: on two buffers that agree below [e] they do
    the same on every range that ends at or before [e]. *)
Definition buffer_local {D : Type} (fields : list (Field D))
    (b1 b2 : list ascii) (e : nat) : Prop :=
  ∀ T str end_ data,
    T ∈ fields → end_ ≤ e →
    field_parse T b1 str end_ data = field_parse T b2 str end_ data.

(** * Properties *)

(** ** Buffer access *)

(** Settles a goal about the characters at the offsets [i] of a literal
    buffer, [i] bounded by a hypothesis, one offset after the other. *)
Ltac each_offset i :=
  first
    [ lia
    | destruct i as [|i];
      [ first [lia | vm_compute; discriminate | vm_compute; reflexivity]
      | each_offset i ] ].

Lemma deref_lookup (buf : list ascii) (p : nat) (c : ascii) :
  buf !! p = Some c → deref buf p = c.
Proof. unfold deref. intros ->. reflexivity. Qed.

Lemma lookup_deref (buf : list ascii) (p : nat) :
  p < length buf → buf !! p = Some (deref buf p).
Proof.
  intros Hp. unfold deref.
  destruct (lookup_lt_is_Some_2 buf p Hp) as [c ->]. reflexivity.
Qed.

(** ** StringParser *)

Lemma find_close_spec (buf : list ascii) (fuel p : nat) :
  let j := StringParser.find_close buf fuel p in
  p ≤ j ≤ p + fuel
  ∧ (∀ i, p ≤ i < j → deref buf i ≠ ")"%char)
  ∧ (j < p + fuel → deref buf j = ")"%char).
Proof.
  revert p. induction fuel as [|fuel IH]; intros p; simpl.
  - repeat split; intros; lia.
  - case_bool_decide as Hc.
    + repeat split; intros; solve [lia | assumption].
    + destruct (IH (S p)) as (Hr & Hno & Hat).
      repeat split; try lia.
      * intros i Hi. destruct (decide (i = p)) as [->|Hne]; [exact Hc|].
        apply Hno. lia.
      * intros Hlt. apply Hat. lia.
Qed.

Lemma find_close_first (buf : list ascii) (str_start end_ close : nat) :
  str_start ≤ close < end_ →
  deref buf close = ")"%char →
  (∀ i, str_start ≤ i < close → deref buf i ≠ ")"%char) →
  StringParser.find_close buf (end_ - str_start) str_start = close.
Proof.
  intros Hr Hc Hno.
  destruct (find_close_spec buf (end_ - str_start) str_start) as (Hj & Hjno & Hjat).
  set (j := StringParser.find_close buf (end_ - str_start) str_start) in *.
  destruct (lt_eq_lt_dec j close) as [[Hlt|Heq]|Hgt]; [|exact Heq|].
  - exfalso. apply (Hno j); [lia|]. apply Hjat. lia.
  - exfalso. apply (Hjno close); [lia|exact Hc].
Qed.

Lemma find_close_none (buf : list ascii) (str_start end_ : nat) :
  str_start ≤ end_ →
  (∀ i, str_start ≤ i < end_ → deref buf i ≠ ")"%char) →
  StringParser.find_close buf (end_ - str_start) str_start = end_.
Proof.
  intros Hr Hno.
  destruct (find_close_spec buf (end_ - str_start) str_start) as (Hj & Hjno & Hjat).
  set (j := StringParser.find_close buf (end_ - str_start) str_start) in *.
  destruct (decide (j = end_)) as [Heq|Hne]; [exact Heq|].
  exfalso. apply (Hno j); [lia|]. apply Hjat. lia.
Qed.

(** C7. [StringParser::parse_string] fails with "Missing (" when the
    range is empty or does not start with an opening parenthesis, with
    "Missing )" when no closing parenthesis occurs before [end_], and
    with "Invalid string length" when the payload between the
    parentheses is shorter than [min] or longer than [max]; otherwise it
    succeeds with the payload, character for character, and with [next]
    one past the closing parenthesis. *)
Theorem parse_string_envelope (min max : nat) (buf : list ascii) (str end_ : nat) :
  let r := StringParser.parse_string min max buf str end_ in
  (end_ ≤ str ∨ deref buf str ≠ "("%char →
     r = fail (fresh []) "Missing (" (Some str))
  ∧ (str < end_ → deref buf str = "("%char →
     (∀ i, str < i < end_ → deref buf i ≠ ")"%char) →
     r = fail (fresh []) "Missing )" (Some str))
  ∧ (∀ close, str < close < end_ → end_ ≤ length buf →
     deref buf str = "("%char → deref buf close = ")"%char →
     (∀ i, str < i < close → deref buf i ≠ ")"%char) →
     let len := close - (str + 1) in
     (len < min ∨ max < len →
        r = fail (fresh []) "Invalid string length" (Some str))
     ∧ (min ≤ len ≤ max →
        err r = None ∧ ctx r = None ∧ next r = Some (close + 1)
        ∧ length (result r) = len
        ∧ ∀ i, i < len → result r !! i = buf !! (str + 1 + i))).
Proof.
  intros r. subst r. unfold StringParser.parse_string.
  split; [|split].
  - intros [Hle|Hne].
    + rewrite bool_decide_true by lia. reflexivity.
    + rewrite (bool_decide_false (deref buf str = "("%char)) by exact Hne.
      rewrite orb_true_r. reflexivity.
  - intros Hlt Hopen Hno.
    rewrite bool_decide_false by lia.
    rewrite (bool_decide_true (deref buf str = "("%char)) by exact Hopen.
    simpl. rewrite find_close_none; [|lia|intros i Hi; apply Hno; lia].
    rewrite bool_decide_true by reflexivity. reflexivity.
  - intros close Hcl Hend Hopen Hclose Hno.
    set (len := close - (str + 1)).
    rewrite bool_decide_false by lia.
    rewrite (bool_decide_true (deref buf str = "("%char)) by exact Hopen.
    simpl. rewrite (find_close_first buf (str + 1) end_ close);
      [|lia|exact Hclose|intros i Hi; apply Hno; lia].
    rewrite bool_decide_false by lia.
    fold len. split.
    + intros [Hmin|Hmax].
      * rewrite (bool_decide_true (len < min)) by exact Hmin. reflexivity.
      * rewrite (bool_decide_true (max < len)) by exact Hmax.
        rewrite orb_true_r. reflexivity.
    + intros [Hmin Hmax].
      rewrite (bool_decide_false (len < min)) by lia.
      rewrite (bool_decide_false (max < len)) by lia.
      simpl. unfold concat_hack. simpl.
      repeat split.
      * rewrite length_take, length_drop. subst len. lia.
      * intros i Hi. rewrite lookup_take_lt by exact Hi.
        rewrite lookup_drop. reflexivity.
Qed.

Lemma parse_string_envelope_witness :
  StringParser.parse_string 2 4 (chars "50)") 0 3
    = fail (fresh []) "Missing (" (Some 0)
  ∧ StringParser.parse_string 2 4 (chars "(50") 0 3
    = fail (fresh []) "Missing )" (Some 0)
  ∧ StringParser.parse_string 3 4 (chars "(50)X") 0 5
    = fail (fresh []) "Invalid string length" (Some 0)
  ∧ next (StringParser.parse_string 2 4 (chars "(50)X") 0 5) = Some 4.
Proof.
  destruct (parse_string_envelope 2 4 (chars "50)") 0 3) as (Ha & _ & _).
  destruct (parse_string_envelope 2 4 (chars "(50") 0 3) as (_ & Hb & _).
  destruct (parse_string_envelope 3 4 (chars "(50)X") 0 5) as (_ & _ & Hc).
  destruct (parse_string_envelope 2 4 (chars "(50)X") 0 5) as (_ & _ & Hd).
  split; [|split; [|split]].
  - apply Ha. right. vm_compute. discriminate.
  - apply Hb; [lia|reflexivity|]. intros i Hi. each_offset i.
  - apply (Hc 3); [lia|simpl; lia|reflexivity|reflexivity| |left; simpl; lia].
    intros i Hi. each_offset i.
  - apply (Hd 3); [lia|simpl; lia|reflexivity|reflexivity| |simpl; lia].
    intros i Hi. each_offset i.
Defined.

(** ** CrcParser *)

Lemma hexval_plain (c : ascii) (d : Z) :
  hexval c = Some d →
  (0 ≤ d < 16)%Z ∧ c ≠ zero ∧ isspace c = false ∧ c ≠ "-"%char ∧ c ≠ "+"%char
  ∧ c ≠ "x"%char ∧ c ≠ "X"%char.
Proof.
  destruct c as [[] [] [] [] [] [] [] []]; vm_compute; intros H;
    first [discriminate H | injection H as <-];
    repeat split; discriminate.
Qed.

Lemma CrcParser_short (buf : list ascii) (str end_ : nat) :
  end_ < str + 4 →
  CrcParser.parse buf str end_ = fail (fresh 0%Z) "No checksum found" (Some str).
Proof.
  intros Hlt. unfold CrcParser.parse, CrcParser.CRC_LEN.
  rewrite bool_decide_true by lia. reflexivity.
Qed.

(** Four hexadecimal digits are decoded as the big-endian 16-bit value
    they spell, and the cursor advances by exactly four. *)
Lemma CrcParser_hex (buf : list ascii) (str end_ : nat) (d0 d1 d2 d3 : Z) :
  str + 4 ≤ end_ →
  hexval (deref buf str) = Some d0 →
  hexval (deref buf (str + 1)) = Some d1 →
  hexval (deref buf (str + 2)) = Some d2 →
  hexval (deref buf (str + 3)) = Some d3 →
  CrcParser.parse buf str end_
  = succeed (set_next (fresh 0%Z) (Some (str + 4)))
            (d0 * 4096 + d1 * 256 + d2 * 16 + d3)%Z.
Proof.
  intros Hle H0 H1 H2 H3.
  unfold CrcParser.parse, CrcParser.CRC_LEN.
  rewrite bool_decide_false by lia.
  cbn [seq map app]. rewrite Nat.add_0_r.
  destruct (hexval_plain _ _ H0) as (R0 & Z0 & S0 & M0 & P0 & _).
  destruct (hexval_plain _ _ H1) as (R1 & Z1 & _ & _ & _ & X1 & X1').
  destruct (hexval_plain _ _ H2) as (R2 & Z2 & _).
  destruct (hexval_plain _ _ H3) as (R3 & Z3 & _).
  set (c0 := deref buf str) in *. set (c1 := deref buf (str + 1)) in *.
  set (c2 := deref buf (str + 2)) in *. set (c3 := deref buf (str + 3)) in *.
  assert (Hstr : strtoul16 [c0; c1; c2; c3; zero]
                 = ((d0 * 4096 + d1 * 256 + d2 * 16 + d3)%Z, 4)).
  { unfold strtoul16. cbn [cstring].
    rewrite !bool_decide_false by assumption.
    rewrite bool_decide_true by reflexivity.
    cbn [skip_space]. rewrite S0.
    assert (Hd : hex_digits [c0; c1; c2; c3] 0 0
                 = ((d0 * 4096 + d1 * 256 + d2 * 16 + d3)%Z, 4)).
    { cbn [hex_digits]. rewrite H0, H1, H2, H3. f_equal. lia. }
    assert (Hplain :
      (let '(acc, count) := hex_digits [c0; c1; c2; c3] 0 0 in
       match count with 0 => (0%Z, 0) | S _ => (acc, 0 + count) end)
      = ((d0 * 4096 + d1 * 256 + d2 * 16 + d3)%Z, 4)).
    { rewrite Hd. reflexivity. }
    destruct c0 as [[] [] [] [] [] [] [] []];
      try solve [exfalso; apply M0; reflexivity | exfalso; apply P0; reflexivity];
      try exact Hplain.
    rewrite (bool_decide_false (c1 = "x"%char)) by assumption.
    rewrite (bool_decide_false (c1 = "X"%char)) by assumption.
    exact Hplain. }
  rewrite Hstr. cbn beta iota.
  rewrite bool_decide_true by reflexivity. cbn [negb].
  rewrite Z.mod_small by lia. reflexivity.
Qed.

(** C3, at inputs where the code and the documented behaviour part: the
    four bytes [" 1AB"] are not four hexadecimal digits, yet
    [CrcParser::parse] succeeds on them, with value 0x01AB and the
    cursor advanced by four: strtoul skips the leading blank, so
    [endp == buf + CRC_LEN] holds.  A [0x] prefix and a sign are
    accepted the same way.  Through [P1Parser::parse] a telegram whose
    CRC is 0x0D87 is accepted with the checksum text [" D87"]. *)
Theorem CrcParser_accepts_non_hex :
  hexval " " = None ∧ hexval "x" = None ∧ hexval "-" = None
  ∧ CrcParser.parse (chars " 1AB") 0 4
    = succeed (set_next (fresh 0%Z) (Some 4)) 0x01AB%Z
  ∧ CrcParser.parse (chars "0x1A") 0 4
    = succeed (set_next (fresh 0%Z) (Some 4)) 0x001A%Z
  ∧ CrcParser.parse (chars "-001") 0 4
    = succeed (set_next (fresh 0%Z) (Some 4)) 0xFFFF%Z
  ∧ fst (P1Parser.parse version_only ∅
           (chars ("/ISk5" ++ nl ++ "1-3:0.2.8(41)" ++ nl ++ "! D87")))
    = set_next (fresh tt) (Some 27).
Proof. repeat split; vm_compute; reflexivity. Qed.

(** ** ObisIdParser *)

Lemma reaches_bounds (buf : list ascii) (str end_ : nat) id part pos :
  reaches buf str end_ id part pos → str ≤ pos ∧ (pos = str ∨ pos ≤ end_).
Proof.
  induction 1 as [|id part pos id' part' _ [IH _] Hlt _]; lia.
Qed.

(** Running the loop from its start is running it from any state it
    passes through. *)
Lemma reaches_scan (buf : list ascii) (str end_ : nat) id part pos :
  reaches buf str end_ id part pos →
  ObisIdParser.scan buf (end_ - str) ObisId_zero 0 str
  = ObisIdParser.scan buf (end_ - pos) id part pos.
Proof.
  induction 1 as [|id part pos id' part' _ IH Hlt Hstep]; [reflexivity|].
  rewrite IH. replace (end_ - pos) with (S (end_ - S pos)) by lia.
  cbn [ObisIdParser.scan]. rewrite Hstep. reflexivity.
Qed.

(** The overflow guard of the loop is the comparison with 255. *)
Lemma step_overflow (c : ascii) (id : ObisId) (part : nat) :
  in_range "0" "9" c = true →
  (255 < v_get id part * 10 + (code c - code "0"%char))%Z →
  ObisIdParser.step c id part = ObisIdParser.Overflow.
Proof.
  intros Hd Hov. unfold ObisIdParser.step. rewrite Hd.
  unfold in_range in Hd. apply andb_prop in Hd as [Hlo Hhi].
  apply Z.leb_le in Hlo, Hhi.
  change (code "0"%char) with 48%Z in *. change (code "9"%char) with 57%Z in *.
  destruct (Z.ltb_spec 25 (v_get id part)) as [|Hle]; [reflexivity|].
  destruct (Z.eqb_spec (v_get id part) 25) as [Heq|Hne]; [|lia].
  destruct (Z.ltb_spec 5 (code c - 48)) as [|Hle']; [reflexivity|lia].
Qed.

Lemma step_dash (id : ObisId) (part : nat) :
  ObisIdParser.step "-" id part
  = if decide (part = 0) then ObisIdParser.Consume id 1 else ObisIdParser.Stop.
Proof. destruct part as [|[|[|[|[|[|part]]]]]]; reflexivity. Qed.

Lemma step_colon (id : ObisId) (part : nat) :
  ObisIdParser.step ":" id part
  = if decide (part = 1) then ObisIdParser.Consume id 2 else ObisIdParser.Stop.
Proof. destruct part as [|[|[|[|[|[|part]]]]]]; reflexivity. Qed.

Lemma step_dot (id : ObisId) (part : nat) :
  ObisIdParser.step "." id part
  = if decide (2 ≤ part ≤ 4) then ObisIdParser.Consume id (S part)
    else ObisIdParser.Stop.
Proof.
  destruct part as [|[|[|[|[|part]]]]]; reflexivity.
Qed.

Lemma step_other (c : ascii) (id : ObisId) (part : nat) :
  in_range "0" "9" c = false →
  c ≠ "-"%char → c ≠ ":"%char → c ≠ "."%char →
  ObisIdParser.step c id part = ObisIdParser.Stop.
Proof.
  intros Hd H1 H2 H3. unfold ObisIdParser.step. rewrite Hd.
  rewrite (bool_decide_false (c = "-"%char)) by assumption.
  rewrite (bool_decide_false (c = ":"%char)) by assumption.
  rewrite (bool_decide_false (c = "."%char)) by assumption.
  rewrite !andb_false_r. reflexivity.
Qed.

Lemma scan_stopped_parse (buf : list ascii) (str end_ : nat) id part pos :
  ObisIdParser.scan buf (end_ - str) ObisId_zero 0 str
  = ObisIdParser.Stopped id part pos →
  stops_at buf str end_ id part pos.
Proof.
  intros Hscan. unfold stops_at, ObisIdParser.parse. rewrite Hscan.
  case_bool_decide as Heq; cbn; repeat split; intros; congruence.
Qed.

Lemma reaches_stop (buf : list ascii) (str end_ : nat) id part pos :
  reaches buf str end_ id part pos →
  end_ ≤ pos ∨ ObisIdParser.step (deref buf pos) id part = ObisIdParser.Stop →
  stops_at buf str end_ id part pos.
Proof.
  intros Hr Hstop. apply scan_stopped_parse. rewrite (reaches_scan _ _ _ _ _ _ Hr).
  destruct (end_ - pos) as [|fuel] eqn:Hfuel; [reflexivity|].
  destruct Hstop as [Hend|Hstep]; [lia|].
  cbn [ObisIdParser.scan]. rewrite Hstep. reflexivity.
Qed.

(** C2 (amended). Whenever the scan comes to a digit that would take the
    current component above 255, [ObisIdParser::parse] fails with "Obis
    ID has number over 255"; the position it reports is the start of
    the id text, and the cursor [next] is what is left on the offending
    digit. *)
Theorem obis_overflow_reported_at_start
    (buf : list ascii) (str end_ : nat) (id : ObisId) (part pos : nat) :
  reaches buf str end_ id part pos →
  pos < end_ →
  in_range "0" "9" (deref buf pos) = true →
  (255 < v_get id part * 10 + (code (deref buf pos) - code "0"%char))%Z →
  let r := ObisIdParser.parse buf str end_ in
  err r = Some "Obis ID has number over 255"
  ∧ ctx r = Some str
  ∧ next r = Some pos.
Proof.
  intros Hr Hlt Hdigit Hover r. subst r. unfold ObisIdParser.parse.
  rewrite (reaches_scan _ _ _ _ _ _ Hr).
  replace (end_ - pos) with (S (end_ - S pos)) by lia.
  cbn [ObisIdParser.scan]. rewrite (step_overflow _ _ _ Hdigit Hover).
  repeat split.
Qed.

Lemma reaches_256 : reaches (chars "256") 0 3 [25; 0; 0; 0; 0; 0]%Z 0 2.
Proof.
  apply (reaches_consume _ _ _ [2; 0; 0; 0; 0; 0]%Z 0 1); [|lia|reflexivity].
  apply (reaches_consume _ _ _ ObisId_zero 0 0); [|lia|reflexivity].
  apply reaches_start.
Qed.

Lemma obis_overflow_reported_at_start_witness :
  let r := ObisIdParser.parse (chars "256") 0 3 in
  err r = Some "Obis ID has number over 255" ∧ ctx r = Some 0 ∧ next r = Some 2.
Proof.
  apply (obis_overflow_reported_at_start (chars "256") 0 3
           [25; 0; 0; 0; 0; 0]%Z 0 2).
  - exact reaches_256.
  - lia.
  - reflexivity.
  - vm_compute. reflexivity.
Defined.

(** C2 as stated fails on the text [256]: the digit [6] at offset 2 is
    the one that would make the component exceed 255, the parse fails,
    and the position reported is offset 0, not offset 2. *)
Lemma obis_overflow_not_at_digit :
  let buf := chars "256" in
  let r := ObisIdParser.parse buf 0 3 in
  reaches buf 0 3 [25; 0; 0; 0; 0; 0]%Z 0 2
  ∧ in_range "0" "9" (deref buf 2) = true
  ∧ (255 < 25 * 10 + (code (deref buf 2) - code "0"%char))%Z
  ∧ failed r = true
  ∧ ctx r = Some 0
  ∧ ctx r ≠ Some 2.
Proof.
  cbv zeta. split; [exact reaches_256|].
  repeat split; try reflexivity. vm_compute. discriminate.
Qed.

(** C4 (amended). At every state the scan passes through: a [-] is
    consumed, advancing the component index, when the index is 0, and
    stops the scan otherwise; a [:] is consumed when the index is 1 and
    stops the scan otherwise; a [.] is consumed when the index is 2, 3
    or 4 and stops the scan otherwise (also at index 1).  Every other
    character that is not a digit, and the end of the range, stop the
    scan.  Stopping is no error of its own: the parse returns with [next]
    on the first unconsumed character, and fails ("OBIS id Empty") only
    when nothing at all was consumed. *)
Theorem obis_scan_separators
    (buf : list ascii) (str end_ : nat) (id : ObisId) (part pos : nat) :
  reaches buf str end_ id part pos →
  let c := deref buf pos in
  let stops := stops_at buf str end_ id part pos in
  (pos < end_ → c = "-"%char →
     if decide (part = 0) then reaches buf str end_ id 1 (S pos) else stops)
  ∧ (pos < end_ → c = ":"%char →
     if decide (part = 1) then reaches buf str end_ id 2 (S pos) else stops)
  ∧ (pos < end_ → c = "."%char →
     if decide (2 ≤ part ≤ 4) then reaches buf str end_ id (S part) (S pos)
     else stops)
  ∧ (pos < end_ → in_range "0" "9" c = false →
     c ≠ "-"%char → c ≠ ":"%char → c ≠ "."%char → stops)
  ∧ (end_ ≤ pos → stops).
Proof.
  intros Hr c stops. subst c stops.
  split; [|split; [|split; [|split]]].
  - intros Hlt Hc. pose proof (step_dash id part) as Hs. rewrite <- Hc in Hs.
    destruct (decide (part = 0)).
    + eapply reaches_consume; eauto.
    + apply reaches_stop; auto.
  - intros Hlt Hc. pose proof (step_colon id part) as Hs. rewrite <- Hc in Hs.
    destruct (decide (part = 1)).
    + eapply reaches_consume; eauto.
    + apply reaches_stop; auto.
  - intros Hlt Hc. pose proof (step_dot id part) as Hs. rewrite <- Hc in Hs.
    destruct (decide (2 ≤ part ≤ 4)).
    + eapply reaches_consume; eauto.
    + apply reaches_stop; auto.
  - intros Hlt Hd H1 H2 H3. apply reaches_stop; [exact Hr|].
    right. apply step_other; assumption.
  - intros Hge. apply reaches_stop; auto.
Qed.

Lemma reaches_1_2 : reaches (chars "1-2.3") 0 5 [1; 2; 0; 0; 0; 0]%Z 1 3.
Proof.
  apply (reaches_consume _ _ _ [1; 0; 0; 0; 0; 0]%Z 1 2); [|lia|reflexivity].
  apply (reaches_consume _ _ _ [1; 0; 0; 0; 0; 0]%Z 0 1); [|lia|reflexivity].
  apply (reaches_consume _ _ _ ObisId_zero 0 0); [|lia|reflexivity].
  apply reaches_start.
Qed.

Lemma obis_scan_separators_witness :
  reaches (chars "1-2.3") 0 5 [1; 0; 0; 0; 0; 0]%Z 1 2
  ∧ stops_at (chars "1-2.3") 0 5 [1; 2; 0; 0; 0; 0]%Z 1 3.
Proof.
  split.
  - assert (Hr : reaches (chars "1-2.3") 0 5 [1; 0; 0; 0; 0; 0]%Z 0 1).
    { apply (reaches_consume _ _ _ ObisId_zero 0 0); [|lia|reflexivity].
      apply reaches_start. }
    destruct (obis_scan_separators _ _ _ _ _ _ Hr) as (Hdash & _).
    apply Hdash; [lia|reflexivity].
  - destruct (obis_scan_separators _ _ _ _ _ _ reaches_1_2) as (_ & _ & Hdot & _).
    apply Hdot; [lia|reflexivity].
Defined.

(** C4 as stated fails on the text [1-2.3]: the scan comes to the [.] at
    offset 3 with component index 1, which lies in 1 through 4, and the
    [.] is not consumed: the parse returns the id (1,2,255,255,255,255)
    with the cursor on the [.]. *)
Lemma obis_dot_not_consumed_at_1 :
  let buf := chars "1-2.3" in
  reaches buf 0 5 [1; 2; 0; 0; 0; 0]%Z 1 3
  ∧ deref buf 3 = "."%char
  ∧ 1 ≤ 1 ≤ 4
  ∧ ObisIdParser.step (deref buf 3) [1; 2; 0; 0; 0; 0]%Z 1 = ObisIdParser.Stop
  ∧ ObisIdParser.parse buf 0 5
    = succeed (until (fresh ObisId_zero) 3) [1; 2; 255; 255; 255; 255]%Z.
Proof.
  cbv zeta. split; [exact reaches_1_2|].
  repeat split; try reflexivity; lia.
Qed.

(** ** Line dispatch *)

Section Dispatch.
Context {D : Type}.
Implicit Types (fields : list (Field D)) (data : D) (buf : list ascii).





(** C6. Once the dispatch of a data line has returned without error,
    [P1Parser::parse_line] succeeds exactly when the dispatch left its
    cursor where the OBIS id ended (nothing consumed) or at the end of
    the line; with the cursor anywhere else it fails with "Trailing
    characters on data line", reported at that cursor. *)
Theorem parse_line_trailing fields buf (line end_ idnext : nat) data
    (datares : ParseResult unit) (data' : D) :
  let idres := ObisIdParser.parse buf line end_ in
  line ≠ end_ →
  failed idres = false →
  next idres = Some idnext →
  ParsedData.parse_line fields (result idres) buf idnext end_ data
  = (datares, data') →
  failed datares = false →
  let r := P1Parser.parse_line fields buf line end_ data in
  (failed (fst r) = false ↔ next datares = Some idnext ∨ next datares = Some end_)
  ∧ (next datares = Some idnext ∨ next datares = Some end_ →
     r = (until (fresh tt) end_, data'))
  ∧ (next datares ≠ Some idnext → next datares ≠ Some end_ →
     r = (fail (fresh tt) "Trailing characters on data line" (next datares),
          data')).
Proof.
  intros idres Hne Hok Hnext Hdisp Hdok r. subst r.
  unfold P1Parser.parse_line.
  rewrite bool_decide_false by exact Hne.
  fold idres. rewrite Hok, Hnext, Hdisp, Hdok.
  destruct (decide (next datares = Some idnext)) as [H1|H1].
  { rewrite (bool_decide_true _ H1). cbn.
    split; [split; [intros _; left; exact H1 | reflexivity]|].
    split; [reflexivity | intros Hn; contradiction]. }
  rewrite (bool_decide_false _ H1).
  destruct (decide (next datares = Some end_)) as [H2|H2].
  { rewrite (bool_decide_true _ H2). cbn.
    split; [split; [intros _; right; exact H2 | reflexivity]|].
    split; [reflexivity | intros _ Hn; contradiction]. }
  rewrite (bool_decide_false _ H2). cbn.
  split; [split; [intros Hf; discriminate Hf | intros [H|H]; contradiction]|].
  split; [intros [H|H]; contradiction | reflexivity].
Qed.

End Dispatch.

(** ** Framing and checksum *)

Lemma crc16_fold_app (seed : Z) (l1 l2 : list ascii) :
  crc16_fold seed (l1 ++ l2) = crc16_fold (crc16_fold seed l1) l2.
Proof. unfold crc16_fold. apply fold_left_app. Qed.

(** The boundary scan stops on the first [!], or at the end of the
    buffer, having folded every byte before it into the CRC. *)
Lemma find_end_spec (buf : list ascii) (fuel : nat) (crc : Z) (pos : nat) :
  pos + fuel ≤ length buf →
  ∃ e, P1Parser.find_end buf fuel crc pos
       = (crc16_fold crc (take (e - pos) (drop pos buf)), e)
    ∧ pos ≤ e ≤ pos + fuel
    ∧ (∀ i, pos ≤ i < e → deref buf i ≠ "!"%char)
    ∧ (e < pos + fuel → deref buf e = "!"%char).
Proof.
  revert crc pos. induction fuel as [|fuel IH]; intros crc pos Hlen.
  - exists pos. cbn [P1Parser.find_end]. rewrite Nat.sub_diag, take_0.
    repeat split; intros; lia.
  - cbn [P1Parser.find_end]. case_bool_decide as Hc.
    + exists pos. rewrite Nat.sub_diag, take_0.
      repeat split; intros; solve [lia | assumption].
    + destruct (IH (_crc16_update crc (code (deref buf pos))) (S pos))
        as (e & Heq & Hr & Hno & Hat); [lia|].
      exists e. rewrite Heq. repeat split; try lia.
      * f_equal. rewrite (drop_S buf (deref buf pos) pos)
          by (apply lookup_deref; lia).
        replace (e - pos) with (S (e - S pos)) by lia. reflexivity.
      * intros i Hi. destruct (decide (i = pos)) as [->|Hne]; [exact Hc|].
        apply Hno. lia.
      * intros Hlt. apply Hat. lia.
Qed.

Lemma framed_inv (buf : list ascii) (e : nat) :
  framed buf e →
  0 < e < length buf ∧ deref buf 0 = "/"%char ∧ deref buf e = "!"%char
  ∧ ∀ i, 1 ≤ i < e → deref buf i ≠ "!"%char.
Proof.
  intros (H0 & Hpos & He & Hno).
  pose proof (lookup_lt_Some _ _ _ He) as Hlt.
  repeat split; try lia; try (apply deref_lookup; assumption).
  intros i Hi Hc. apply (Hno i); [lia|].
  rewrite lookup_deref by lia. congruence.
Qed.

Section Telegram.
Context {D : Type}.
Implicit Types (fields : list (Field D)) (data : D) (buf : list ascii).

Lemma parse_framed fields data buf (e : nat) :
  framed buf e →
  P1Parser.parse fields data buf = after_framing fields data buf e.
Proof.
  intros Hf. destruct (framed_inv _ _ Hf) as (He & H0 & Hbang & Hno).
  unfold P1Parser.parse, after_framing.
  rewrite bool_decide_false by lia.
  rewrite (bool_decide_true (deref buf 0 = "/"%char)) by exact H0. cbn [negb orb].
  destruct (find_end_spec buf (0 + length buf - (0 + 1))
              (_crc16_update 0 (code (deref buf 0))) (0 + 1))
    as (e' & Heq & Hr & Hno' & Hat'); [lia|].
  assert (e' = e) as ->.
  { destruct (lt_eq_lt_dec e' e) as [[Hlt|Heq']|Hgt]; [|exact Heq'|].
    - exfalso. apply (Hno e'); [lia|]. apply Hat'. lia.
    - exfalso. apply (Hno' e); [lia|exact Hbang]. }
  rewrite Heq. rewrite bool_decide_false by lia.
  replace (0 + length buf) with (length buf) by lia.
  assert (Hcrc :
    _crc16_update
      (crc16_fold (_crc16_update 0 (code (deref buf 0)))
                  (take (e - (0 + 1)) (drop (0 + 1) buf)))
      (code (deref buf e))
    = crc16_fold 0 (take (S e) buf)).
  { rewrite (take_S_r buf e (deref buf e)) by (apply lookup_deref; lia).
    rewrite crc16_fold_app.
    destruct buf as [|c buf']; [cbn in He; lia|].
    replace e with (S (e - 1)) at 3 by lia.
    cbn. replace (e - 1 - 0) with (e - 1) by lia. 
    rewrite drop_0. reflexivity. }
  rewrite Hcrc. reflexivity.
Qed.

(** The three ways a buffer can be (not) framed, and what [parse] returns
    in each. *)
Lemma parse_cases fields data buf :
  (buf !! 0 ≠ Some "/"%char
   ∧ P1Parser.parse fields data buf
     = (fail (fresh tt) "Data should start with /" (Some 0), data))
  ∨ (buf !! 0 = Some "/"%char ∧ (∀ i, 0 < i → buf !! i ≠ Some "!"%char)
     ∧ P1Parser.parse fields data buf
       = (fail (fresh tt) "No checksum found" None, data))
  ∨ (∃ e, framed buf e
     ∧ P1Parser.parse fields data buf = after_framing fields data buf e).
Proof.
  destruct (decide (buf !! 0 = Some "/"%char)) as [H0|H0].
  2:{ left. split; [exact H0|]. unfold P1Parser.parse.
      destruct buf as [|c buf']; [reflexivity|].
      rewrite (bool_decide_false (deref (c :: buf') 0 = "/"%char)).
      - reflexivity.
      - cbn. intros ->. apply H0. reflexivity. }
  right.
  pose proof (lookup_lt_Some _ _ _ H0) as Hlen.
  destruct (find_end_spec buf (0 + length buf - (0 + 1))
              (_crc16_update 0 (code (deref buf 0))) (0 + 1))
    as (e & Heq & Hr & Hno & Hat); [lia|].
  destruct (decide (e < length buf)) as [Hlt|Hge].
  - right. exists e.
    assert (Hf : framed buf e).
    { repeat split; [exact H0|lia| |].
      - rewrite lookup_deref by lia. f_equal. apply Hat. lia.
      - intros i Hi Hc. apply (Hno i); [lia|]. apply deref_lookup. exact Hc. }
    split; [exact Hf|]. apply parse_framed. exact Hf.
  - left. split; [exact H0|]. split.
    + intros i Hi Hc. pose proof (lookup_lt_Some _ _ _ Hc) as Hil.
      apply (Hno i); [lia|]. apply deref_lookup. exact Hc.
    + unfold P1Parser.parse. rewrite bool_decide_false by lia.
      rewrite (bool_decide_true (deref buf 0 = "/"%char))
        by (apply deref_lookup; exact H0).
      cbn [negb orb]. rewrite Heq.
      rewrite bool_decide_true by lia. reflexivity.
Qed.

Lemma framed_unique buf (e e' : nat) : framed buf e → framed buf e' → e = e'.
Proof.
  intros (_ & Hp & He & Hno) (_ & Hp' & He' & Hno').
  destruct (lt_eq_lt_dec e e') as [[Hlt|Heq]|Hgt]; [|exact Heq|].
  - exfalso. apply (Hno' e); [lia|exact He].
  - exfalso. apply (Hno e'); [lia|exact He'].
Qed.

End Telegram.

(** ** The payload *)

Section Payload.
Context {D : Type}.
Implicit Types (fields : list (Field D)) (data : D) (buf : list ascii).

Lemma id_line_no_eol fields buf (fuel line_start line_end : nat) data :
  (∀ i, line_end ≤ i < line_end + fuel → is_eol (deref buf i) = false) →
  P1Parser.id_line fields buf fuel line_start line_end data
  = Done (line_start, line_end + fuel, data).
Proof.
  revert line_end. induction fuel as [|fuel IH]; intros line_end Hno.
  - cbn. rewrite Nat.add_0_r. reflexivity.
  - cbn [P1Parser.id_line]. rewrite Hno by lia.
    rewrite IH by (intros i Hi; apply Hno; lia).
    do 3 f_equal. lia.
Qed.

Lemma data_lines_no_eol fields buf (fuel line_start line_end : nat) data :
  (∀ i, line_end ≤ i < line_end + fuel → is_eol (deref buf i) = false) →
  P1Parser.data_lines fields buf fuel line_start line_end data
  = Done (line_start, line_end + fuel, data).
Proof.
  revert line_end. induction fuel as [|fuel IH]; intros line_end Hno.
  - cbn. rewrite Nat.add_0_r. reflexivity.
  - cbn [P1Parser.data_lines]. rewrite Hno by lia.
    rewrite IH by (intros i Hi; apply Hno; lia).
    do 3 f_equal. lia.
Qed.

(** A payload without a line terminator passes neither loop body: the
    identification check and the dispatch are not reached. *)
Lemma parse_data_no_eol fields buf (str end_ : nat) data :
  str ≤ end_ →
  (∀ i, str ≤ i < end_ → is_eol (deref buf i) = false) →
  P1Parser.parse_data fields buf str end_ data
  = (if decide (end_ = str) then fresh tt
     else fail (fresh tt) "Last dataline not CRLF terminated" (Some str), data).
Proof.
  intros Hle Hno. unfold P1Parser.parse_data.
  rewrite id_line_no_eol by (intros i Hi; apply Hno; lia).
  replace (str + (end_ - str)) with end_ by lia.
  rewrite Nat.sub_diag. cbn [P1Parser.data_lines].
  destruct (decide (end_ = str)) as [Heq|Hne].
  - rewrite bool_decide_true by exact Heq. reflexivity.
  - rewrite bool_decide_false by exact Hne. reflexivity.
Qed.

(** C1. [P1Parser::parse] compares the decoded checksum with the CRC16,
    seeded at 0, of the bytes from the leading [/] through the first [!]
    inclusive.  When the four characters after the [!] decode to a value
    that differs from it, the parse fails with "Checksum mismatch"
    reported at the [!]; and whenever the parse returns without error,
    the telegram was framed, its checksum decoded, and the two values
    are equal. *)
Theorem checksum_verified fields data buf :
  (∀ e, framed buf e →
     let check_res := CrcParser.parse buf (e + 1) (length buf) in
     failed check_res = false →
     result check_res ≠ crc16_fold 0 (take (S e) buf) →
     P1Parser.parse fields data buf
     = (fail (fresh tt) "Checksum mismatch" (Some e), data))
  ∧ (failed (fst (P1Parser.parse fields data buf)) = false →
     ∃ e, framed buf e
       ∧ failed (CrcParser.parse buf (e + 1) (length buf)) = false
       ∧ result (CrcParser.parse buf (e + 1) (length buf))
         = crc16_fold 0 (take (S e) buf)).
Proof.
  split.
  - intros e Hf check_res Hok Hne.
    rewrite (parse_framed _ _ _ _ Hf). unfold after_framing.
    fold check_res. rewrite Hok.
    rewrite bool_decide_false by exact Hne. reflexivity.
  - intros Hsucc.
    destruct (parse_cases fields data buf)
      as [(_ & Heq)|[(_ & _ & Heq)|(e & Hf & Heq)]];
      rewrite Heq in Hsucc; try discriminate Hsucc.
    exists e. split; [exact Hf|].
    unfold after_framing in Hsucc.
    destruct (failed (CrcParser.parse buf (e + 1) (length buf))) eqn:Hc.
    { cbn in Hsucc. unfold failed in Hc, Hsucc. cbn in Hsucc.
      rewrite Hsucc in Hc. discriminate Hc. }
    split; [reflexivity|].
    case_bool_decide as Hcrc; [exact Hcrc|discriminate Hsucc].
Qed.

(** C9. A framed telegram whose payload contains no line terminator is
    never put to the identification check: with a checksum that matches,
    the parse succeeds when the payload is empty (the buffer is [/!] and
    the checksum) and fails with "Last dataline not CRLF terminated"
    otherwise; the registry is not touched. *)
Theorem empty_payload_accepted fields data buf (e : nat) :
  framed buf e →
  (∀ i, 0 < i < e → is_eol (deref buf i) = false) →
  let check_res := CrcParser.parse buf (e + 1) (length buf) in
  failed check_res = false →
  result check_res = crc16_fold 0 (take (S e) buf) →
  P1Parser.parse fields data buf
  = (set_next
       (if decide (e = 1) then fresh tt
        else fail (fresh tt) "Last dataline not CRLF terminated" (Some 1))
       (next check_res),
     data).
Proof.
  intros Hf Hno check_res Hok Hcrc.
  rewrite (parse_framed _ _ _ _ Hf). unfold after_framing.
  fold check_res. rewrite Hok.
  rewrite bool_decide_true by exact Hcrc. cbn [negb].
  destruct Hf as (_ & Hpos & _).
  rewrite parse_data_no_eol by (try lia; intros i Hi; apply Hno; lia).
  reflexivity.
Qed.

(** C10. When the buffer does not start with [/], holds no [!] after
    it, or is framed but its checksum does not decode or does not equal
    the CRC, [P1Parser::parse] fails and returns the registry it was
    given, whatever the fields of the registry are: none of their parse
    routines has run. *)
Theorem framing_failure_leaves_registry fields data buf :
  buf !! 0 ≠ Some "/"%char
  ∨ (∀ i, 0 < i → buf !! i ≠ Some "!"%char)
  ∨ (∃ e, framed buf e
       ∧ (failed (CrcParser.parse buf (e + 1) (length buf)) = true
          ∨ result (CrcParser.parse buf (e + 1) (length buf))
            ≠ crc16_fold 0 (take (S e) buf))) →
  failed (fst (P1Parser.parse fields data buf)) = true
  ∧ snd (P1Parser.parse fields data buf) = data.
Proof.
  intros Hbad.
  destruct (parse_cases fields data buf)
    as [(_ & Heq)|[(_ & _ & Heq)|(e & Hf & Heq)]];
    rewrite Heq; try (split; reflexivity).
  destruct Hbad as [H0|[Hnobang|(e' & Hf' & Hchk)]].
  - destruct Hf as (H0' & _). contradiction.
  - destruct Hf as (_ & Hpos & He & _). exfalso. exact (Hnobang e Hpos He).
  - rewrite (framed_unique _ _ _ Hf' Hf) in Hchk.
    unfold after_framing. destruct Hchk as [Hfail|Hne].
    + rewrite Hfail. split; [|reflexivity]. exact Hfail.
    + destruct (failed (CrcParser.parse buf (e + 1) (length buf))) eqn:Hc.
      * split; [|reflexivity]. exact Hc.
      * rewrite bool_decide_false by exact Hne. split; reflexivity.
Qed.

End Payload.

(** ** What a failed parse leaves in the registry *)

Section NoRollback.
Context {D : Type}.
Implicit Types (fields : list (Field D)) (data : D) (buf : list ascii).

Variable Inv : D → Prop.

Lemma dispatch_inv fields (id : ObisId) buf (str end_ : nat) data :
  preserved Inv fields buf → Inv data →
  Inv (snd (ParsedData.parse_line fields id buf str end_ data)).
Proof.
  intros Hpres Hinv.
  assert (Hsub : ∀ T, T ∈ fields → T ∈ fields) by auto.
  revert Hsub. generalize fields at 1 3 as fs.
  induction fs as [|T Ts IH]; intros Hsub; [exact Hinv|].
  cbn [ParsedData.parse_line]. case_bool_decide.
  - apply Hpres; [apply Hsub; left|exact Hinv].
  - apply IH. intros T' HT'. apply Hsub. right. exact HT'.
Qed.

Lemma parse_line_inv fields buf (line end_ : nat) data :
  preserved Inv fields buf → Inv data →
  Inv (snd (P1Parser.parse_line fields buf line end_ data)).
Proof.
  intros Hpres Hinv. unfold P1Parser.parse_line.
  case_bool_decide; [exact Hinv|].
  destruct (failed (ObisIdParser.parse buf line end_)); [exact Hinv|].
  destruct (next (ObisIdParser.parse buf line end_)) as [idnext|]; [|exact Hinv].
  pose proof (dispatch_inv fields (result (ObisIdParser.parse buf line end_))
                buf idnext end_ data Hpres Hinv) as Hd.
  destruct (ParsedData.parse_line _ _ _ _ _ _) as [datares data'].
  cbn in Hd. destruct (failed datares); [exact Hd|].
  destruct (_ && _); exact Hd.
Qed.

End NoRollback.

(** ** The parser at work *)


Lemma version_only_populated buf :
  preserved (λ data : TextData, is_Some (data !! version_id)) version_only buf.
Proof.
  intros T str end_ data HT Hinv.
  apply list_elem_of_singleton in HT. subst T.
  unfold text_field. cbn [field_parse snd].
  destruct (failed _); [exact Hinv|].
  rewrite lookup_insert_eq. eexists. reflexivity.
Qed.

Lemma telegram_ok_framed (crc : string) :
  framed (telegram_ok ++ chars crc) 22.
Proof.
  repeat split; [lia|].
  intros i Hi. each_offset i.
Qed.

Lemma checksum_verified_witness :
  P1Parser.parse version_only ∅ (telegram_ok ++ chars "0000")
  = (fail (fresh tt) "Checksum mismatch" (Some 22), ∅)
  ∧ ∃ e, framed (telegram_ok ++ chars "1CBB") e
      ∧ failed (CrcParser.parse (telegram_ok ++ chars "1CBB") (e + 1) 27) = false
      ∧ result (CrcParser.parse (telegram_ok ++ chars "1CBB") (e + 1) 27)
        = crc16_fold 0 (take (S e) (telegram_ok ++ chars "1CBB")).
Proof.
  split.
  - apply (checksum_verified version_only ∅ (telegram_ok ++ chars "0000")).
    + apply telegram_ok_framed.
    + vm_compute. reflexivity.
    + vm_compute. discriminate.
  - apply (checksum_verified version_only ∅ (telegram_ok ++ chars "1CBB")).
    vm_compute. reflexivity.
Defined.


Lemma parse_line_trailing_witness :
  P1Parser.parse_line version_only (chars "1-3:0.2.8(50)X") 0 14 ∅
  = (fail (fresh tt) "Trailing characters on data line" (Some 13),
     <[version_id := chars "50"]> ∅).
Proof.
  destruct (parse_line_trailing version_only (chars "1-3:0.2.8(50)X") 0 14 9 ∅
              (until (fresh tt) 13) (<[version_id := chars "50"]> ∅))
    as (_ & _ & Htrail).
  - lia.
  - vm_compute. reflexivity.
  - vm_compute. reflexivity.
  - vm_compute. reflexivity.
  - reflexivity.
  - apply Htrail; cbn; intros H; discriminate H.
Defined.

Lemma empty_payload_accepted_witness :
  P1Parser.parse version_only ∅ (chars "/!28DC")
  = (set_next (fresh tt) (Some 6), ∅).
Proof.
  apply (empty_payload_accepted version_only ∅ (chars "/!28DC") 1).
  - repeat split; [lia|]. intros i Hi. lia.
  - intros i Hi. lia.
  - vm_compute. reflexivity.
  - vm_compute. reflexivity.
Defined.

Lemma framing_failure_leaves_registry_witness :
  let data : TextData := <[version_id := chars "42"]> ∅ in
  snd (P1Parser.parse version_only data (chars "ISk5")) = data
  ∧ snd (P1Parser.parse version_only data (chars "/ISk5")) = data
  ∧ snd (P1Parser.parse version_only data (telegram_ok ++ chars "1CB")) = data
  ∧ snd (P1Parser.parse version_only data (telegram_ok ++ chars "0000")) = data.
Proof.
  intros data. split; [|split; [|split]].
  - apply (framing_failure_leaves_registry version_only data (chars "ISk5")).
    left. vm_compute. discriminate.
  - apply (framing_failure_leaves_registry version_only data (chars "/ISk5")).
    right. left. intros i Hi.
    destruct (decide (i < 5)) as [Hlt|Hge]; [each_offset i|].
    rewrite lookup_ge_None_2 by (cbn; lia). discriminate.
  - apply (framing_failure_leaves_registry version_only data
             (telegram_ok ++ chars "1CB")).
    right. right. exists 22. split; [apply telegram_ok_framed|].
    left. vm_compute. reflexivity.
  - apply (framing_failure_leaves_registry version_only data
             (telegram_ok ++ chars "0000")).
    right. right. exists 22. split; [apply telegram_ok_framed|].
    right. vm_compute. discriminate.
Defined.

(** C8 as stated fails on the telegram
    [/ISk5 CRLF 1-3:0.2.8(50) CRLF X!FBBF]: its checksum matches, the
    line [1-3:0.2.8(50)] is decoded into its field, and the parse then
    fails because the last line is not terminated.  The registry,
    empty before the call, holds the value [50] after it. *)
Lemma failed_parse_keeps_decoded_field :
  let buf := telegram_unterminated ++ chars "FBBF" in
  let r := P1Parser.parse version_only ∅ buf in
  (∅ : TextData) !! version_id = None
  ∧ err (fst r) = Some "Last dataline not CRLF terminated"
  ∧ snd r !! version_id = Some (chars "50")
  ∧ snd r ≠ ∅.
Proof.
  cbv zeta. split; [reflexivity|]. split; [vm_compute; reflexivity|].
  assert (H : snd (P1Parser.parse version_only ∅
                     (telegram_unterminated ++ chars "FBBF")) !! version_id
              = Some (chars "50")) by (vm_compute; reflexivity).
  split; [exact H|]. intros Heq. rewrite Heq in H. discriminate H.
Qed.

(** * Further properties of the parsers *)

(** ** ObisIdParser: what the scan keeps and what it returns *)

Lemma step_consume_inv (c : ascii) (id : ObisId) (part : nat) id' part' :
  ObisIdParser.step c id part = ObisIdParser.Consume id' part' →
  (is_digit c = true ∧ part' = part
   ∧ (v_get id part * 10 + digit_value c ≤ 255)%Z
   ∧ id' = v_set id part ((v_get id part * 10 + digit_value c) mod 256)%Z)
  ∨ (is_digit c = false ∧ id' = id ∧ part' = S part ∧ part ≤ 4
     ∧ c = separator part).
Proof.
  unfold ObisIdParser.step, is_digit, digit_value.
  destruct (in_range "0" "9" c) eqn:Hd.
  - destruct (_ || _) eqn:Hov; [discriminate|].
    intros [= <- <-]. left. repeat split.
    apply orb_false_elim in Hov as [H1 H2].
    apply Z.ltb_ge in H1.
    unfold in_range in Hd. apply andb_prop in Hd as [Hlo Hhi].
    apply Z.leb_le in Hlo, Hhi.
    change (code "0"%char) with 48%Z in *. change (code "9"%char) with 57%Z in *.
    destruct (Z.eqb_spec (v_get id part) 25) as [Heq|Hne]; [|lia].
    cbn in H2. apply Z.ltb_ge in H2. lia.
  - destruct part as [|[|[|[|[|part]]]]]; cbn;
      repeat case_bool_decide; cbn; try discriminate; try lia;
      intros [= <- <-]; right; repeat split; solve [lia | assumption].
Qed.

(** The states of the scan hold six components, each a byte that was
    never wrapped around, and a component index below six. *)
Lemma reaches_wf (buf : list ascii) (str end_ : nat) id part pos :
  reaches buf str end_ id part pos →
  length id = 6 ∧ part ≤ 5 ∧ Forall (λ x, 0 ≤ x ≤ 255)%Z id.
Proof.
  induction 1 as [|id part pos id' part' _ (Hlen & Hpart & Hall) Hlt Hstep].
  - repeat split; [lia|]. repeat constructor; lia.
  - apply step_consume_inv in Hstep
      as [(_ & -> & Hle & ->)|(_ & -> & -> & Hp & _)].
    + unfold v_set. rewrite length_insert. repeat split; [exact Hlen|exact Hpart|].
      apply Forall_insert; [exact Hall|].
      pose proof (Z.mod_pos_bound
                    (v_get id part * 10 + digit_value (deref buf pos)) 256).
      lia.
    + repeat split; [exact Hlen|lia|exact Hall].
Qed.

(** Where the loop ends is a state it passed through. *)
Lemma scan_reaches (buf : list ascii) (str end_ : nat) (fuel : nat) id part pos :
  reaches buf str end_ id part pos →
  fuel = end_ - pos →
  match ObisIdParser.scan buf fuel id part pos with
  | ObisIdParser.Over id' p =>
      ∃ part', reaches buf str end_ id' part' p ∧ p < end_
  | ObisIdParser.Stopped id' part' p => reaches buf str end_ id' part' p
  end.
Proof.
  revert id part pos. induction fuel as [|fuel IH]; intros id part pos Hr Hfuel.
  - exact Hr.
  - cbn [ObisIdParser.scan].
    destruct (ObisIdParser.step (deref buf pos) id part) as [|id' part'|] eqn:Hstep.
    + exists part. split; [exact Hr|lia].
    + apply IH; [|lia]. eapply reaches_consume; eauto. lia.
    + exact Hr.
Qed.

Lemma fill_rest_wf (id : ObisId) (part : nat) :
  length id = 6 → Forall (λ x, 0 ≤ x ≤ 255)%Z id →
  length (ObisIdParser.fill_rest id part) = 6
  ∧ Forall (λ x, 0 ≤ x ≤ 255)%Z (ObisIdParser.fill_rest id part).
Proof.
  unfold ObisIdParser.fill_rest.
  generalize (seq (S part) (6 - S part)) as ps. intros ps. revert id.
  induction ps as [|p ps IH]; intros id Hlen Hall; [split; assumption|].
  cbn [fold_left]. apply IH.
  - unfold v_set. rewrite length_insert. exact Hlen.
  - apply Forall_insert; [exact Hall|lia].
Qed.

(** X1. Whatever the input, the id that [ObisIdParser::parse] returns
    has six components, each between 0 and 255.  On a range with
    [str <= end] the cursor [next] lies inside the range, and a parse
    that succeeds has consumed at least one character. *)
Theorem ObisIdParser_result_wellformed (buf : list ascii) (str end_ : nat) :
  let r := ObisIdParser.parse buf str end_ in
  length (result r) = 6
  ∧ Forall (λ x, 0 ≤ x ≤ 255)%Z (result r)
  ∧ (∃ p, next r = Some p ∧ str ≤ p ∧ (str ≤ end_ → p ≤ end_)
          ∧ (err r = None → str < p)).
Proof.
  intros r. subst r. unfold ObisIdParser.parse.
  pose proof (scan_reaches buf str end_ (end_ - str) ObisId_zero 0 str
                (reaches_start buf str end_) eq_refl) as Hs.
  destruct (ObisIdParser.scan _ _ _ _ _) as [id p|id part p].
  - destruct Hs as (part & Hr & Hlt).
    destruct (reaches_wf _ _ _ _ _ _ Hr) as (Hlen & _ & Hall).
    destruct (reaches_bounds _ _ _ _ _ _ Hr) as (Hge & _).
    cbn. repeat split; try assumption.
    exists p. repeat split; try lia. intros H. discriminate H.
  - destruct (reaches_wf _ _ _ _ _ _ Hs) as (Hlen & _ & Hall).
    destruct (reaches_bounds _ _ _ _ _ _ Hs) as (Hge & Hle).
    case_bool_decide as Heq; cbn.
    + repeat split; try assumption.
      exists p. repeat split; try lia. intros H. discriminate H.
    + destruct (fill_rest_wf id part Hlen Hall) as (Hlen' & Hall').
      repeat split; try assumption.
      exists p. repeat split; lia.
Qed.

Lemma scan_position (buf : list ascii) (fuel : nat) id part pos :
  match ObisIdParser.scan buf fuel id part pos with
  | ObisIdParser.Over _ p => pos ≤ p
  | ObisIdParser.Stopped _ _ p => pos ≤ p
  end.
Proof.
  revert id part pos. induction fuel as [|fuel IH]; intros id part pos; cbn;
    [lia|].
  destruct (ObisIdParser.step _ _ _) as [|id' part'|]; try lia.
  specialize (IH id' part' (S pos)).
  destruct (ObisIdParser.scan _ _ _ _ _); lia.
Qed.

(** X2. [ObisIdParser::parse] reports "OBIS id Empty" exactly when the
    range is empty or its first character is neither a digit nor [-]. *)
Theorem ObisIdParser_empty_iff (buf : list ascii) (str end_ : nat) :
  err (ObisIdParser.parse buf str end_) = Some "OBIS id Empty"
  ↔ end_ ≤ str
    ∨ (is_digit (deref buf str) = false ∧ deref buf str ≠ "-"%char).
Proof.
  unfold ObisIdParser.parse. split.
  - intros Herr.
    destruct (decide (end_ ≤ str)) as [Hle|Hgt]; [left; exact Hle|right].
    replace (end_ - str) with (S (end_ - S str)) in Herr by lia.
    cbn [ObisIdParser.scan] in Herr.
    destruct (ObisIdParser.step (deref buf str) ObisId_zero 0)
      as [|id' part'|] eqn:Hstep.
    + cbn in Herr. discriminate Herr.
    + pose proof (scan_position buf (end_ - S str) id' part' (S str)) as Hpos.
      destruct (ObisIdParser.scan _ _ _ _ _) as [id p|id part p].
      * cbn in Herr. discriminate Herr.
      * rewrite bool_decide_false in Herr by lia. cbn in Herr. discriminate Herr.
    + unfold ObisIdParser.step, is_digit in *.
      destruct (in_range "0" "9" (deref buf str)).
      * cbn in Hstep. discriminate Hstep.
      * split; [reflexivity|]. intros Hc. rewrite Hc in Hstep.
        cbn in Hstep. discriminate Hstep.
  - intros [Hle|(Hd & Hc)].
    + replace (end_ - str) with 0 by lia. cbn [ObisIdParser.scan].
      rewrite bool_decide_true by reflexivity. reflexivity.
    + assert (Hstop : ObisIdParser.step (deref buf str) ObisId_zero 0
                      = ObisIdParser.Stop).
      { unfold ObisIdParser.step. unfold is_digit in Hd. rewrite Hd.
        rewrite (bool_decide_false (deref buf str = "-"%char)) by exact Hc.
        reflexivity. }
      destruct (end_ - str) as [|fuel]; cbn [ObisIdParser.scan];
        rewrite ?Hstop; rewrite bool_decide_true by reflexivity; reflexivity.
Qed.

(** ** ObisIdParser: reading the text of an id *)

















(** ** CrcParser and the checksum of a telegram *)

Lemma hexval_hex_char (upper : bool) (d : Z) :
  (0 ≤ d < 16)%Z → hexval (hex_char upper d) = Some d.
Proof.
  intros Hd.
  assert (Hin : In d [0; 1; 2; 3; 4; 5; 6; 7; 8; 9; 10; 11; 12; 13; 14; 15]%Z)
    by (cbn; lia).
  cbn in Hin.
  destruct upper;
    repeat (destruct Hin as [<-|Hin]; [reflexivity|]); contradiction.
Qed.

(** The four hexadecimal digits of a 16-bit value are decoded to it. *)
Lemma CrcParser_hex4
    (upper : bool) (v : Z) (buf : list ascii) (str end_ : nat) :
  (0 ≤ v < 65536)%Z →
  holds buf str (hex4 upper v) →
  str + 4 ≤ end_ →
  CrcParser.parse buf str end_
  = succeed (set_next (fresh 0%Z) (Some (str + 4))) v.
Proof.
  intros Hv Hh Hend.
  assert (Hd : ∀ i c, hex4 upper v !! i = Some c → deref buf (str + i) = c).
  { intros i c Hc. apply deref_lookup. apply Hh. exact Hc. }
  pose proof (Hd 0 _ eq_refl) as H0. rewrite Nat.add_0_r in H0.
  pose proof (Hd 1 _ eq_refl) as H1.
  pose proof (Hd 2 _ eq_refl) as H2.
  pose proof (Hd 3 _ eq_refl) as H3.
  rewrite (CrcParser_hex buf str end_ (v / 4096 mod 16) (v / 256 mod 16)
             (v / 16 mod 16) (v mod 16))%Z.
  - f_equal. Z.div_mod_to_equations. lia.
  - exact Hend.
  - rewrite H0. apply hexval_hex_char. Z.div_mod_to_equations. lia.
  - rewrite H1. apply hexval_hex_char. Z.div_mod_to_equations. lia.
  - rewrite H2. apply hexval_hex_char. Z.div_mod_to_equations. lia.
  - rewrite H3. apply hexval_hex_char. Z.div_mod_to_equations. lia.
Qed.

Lemma holds_middle (pre text rest : list ascii) :
  holds (pre ++ text ++ rest) (length pre) text.
Proof.
  intros i c Hc. rewrite lookup_app_r by lia.
  replace (length pre + i - length pre) with i by lia.
  rewrite lookup_app_l by (apply lookup_lt_Some in Hc; exact Hc). exact Hc.
Qed.

(** X4. Writing a 16-bit value as four hexadecimal digits, most
    significant first, in upper or in lower case, and reading them with
    [CrcParser::parse] gives the value back, wherever the digits stand
    in the buffer and whatever follows them; the cursor advances by
    exactly four. *)
Theorem CrcParser_round_trip
    (upper : bool) (v : Z) (pre rest : list ascii) (end_ : nat) :
  (0 ≤ v < 65536)%Z →
  length pre + 4 ≤ end_ →
  let r := CrcParser.parse (pre ++ hex4 upper v ++ rest) (length pre) end_ in
  err r = None ∧ result r = v ∧ next r = Some (length pre + 4).
Proof.
  intros Hv Hend r. subst r.
  rewrite (CrcParser_hex4 upper v _ (length pre) end_ Hv
             (holds_middle pre (hex4 upper v) rest) Hend).
  repeat split.
Qed.

Lemma CrcParser_round_trip_witness :
  let r := CrcParser.parse (chars "!" ++ hex4 false 0x1CBB ++ chars "/next") 1 5 in
  err r = None ∧ result r = 0x1CBB%Z ∧ next r = Some 5.
Proof.
  apply (CrcParser_round_trip false 0x1CBB%Z (chars "!") (chars "/next") 5).
  - lia.
  - cbn. lia.
Defined.

Lemma Z_lxor_range (n a b : Z) :
  (0 ≤ n)%Z → (0 ≤ a < 2 ^ n)%Z → (0 ≤ b < 2 ^ n)%Z →
  (0 ≤ Z.lxor a b < 2 ^ n)%Z.
Proof.
  intros Hn Ha Hb.
  assert (Hnn : (0 ≤ Z.lxor a b)%Z) by (apply Z.lxor_nonneg; lia).
  split; [exact Hnn|].
  destruct (Z.eq_dec (Z.lxor a b) 0%Z) as [Hz|Hne]; [rewrite Hz; lia|].
  assert (Hnpos : (0 < n)%Z).
  { destruct (Z.eq_dec n 0%Z) as [->|]; [|lia].
    assert (a = 0%Z) by (cbn in Ha; lia). assert (b = 0%Z) by (cbn in Hb; lia).
    subst. exfalso. apply Hne. reflexivity. }
  assert (Hlog : ∀ x, (0 ≤ x < 2 ^ n)%Z → (Z.log2 x < n)%Z).
  { intros x Hx. destruct (Z.eq_dec x 0%Z) as [->|]; [cbn; lia|].
    apply Z.log2_lt_pow2; lia. }
  apply Z.log2_lt_pow2; [lia|].
  eapply Z.le_lt_trans; [apply Z.log2_lxor; lia|].
  apply Z.max_lub_lt; apply Hlog; assumption.
Qed.

Lemma crc16_shift_range (crc : Z) :
  (0 ≤ crc < 2 ^ 16)%Z → (0 ≤ crc16_shift crc < 2 ^ 16)%Z.
Proof.
  intros Hc. unfold crc16_shift.
  assert (Hs : (0 ≤ Z.shiftr crc 1 < 2 ^ 16)%Z).
  { rewrite Z.shiftr_div_pow2 by lia. change (2 ^ 1)%Z with 2%Z.
    Z.div_mod_to_equations. lia. }
  destruct (Z.testbit crc 0); [|exact Hs].
  apply Z_lxor_range; lia.
Qed.

Lemma code_range (c : ascii) : (0 ≤ code c < 2 ^ 8)%Z.
Proof.
  destruct c as [[] [] [] [] [] [] [] []]; vm_compute; split; congruence.
Qed.

(** The running CRC is a 16-bit value: the [uint16_t] that holds it in
    [P1Parser::parse] never truncates. *)
Lemma crc16_update_range (crc a : Z) :
  (0 ≤ crc < 2 ^ 16)%Z → (0 ≤ a < 2 ^ 8)%Z →
  (0 ≤ _crc16_update crc a < 2 ^ 16)%Z.
Proof.
  intros Hc Ha. unfold _crc16_update.
  assert (Hx : (0 ≤ Z.lxor crc a < 2 ^ 16)%Z) by (apply Z_lxor_range; lia).
  cbn [Nat.iter]. repeat apply crc16_shift_range. exact Hx.
Qed.

Lemma crc16_fold_range (seed : Z) (bytes : list ascii) :
  (0 ≤ seed < 2 ^ 16)%Z → (0 ≤ crc16_fold seed bytes < 2 ^ 16)%Z.
Proof.
  revert seed. induction bytes as [|c bytes IH]; intros seed Hs; [exact Hs|].
  cbn. apply IH. apply crc16_update_range; [exact Hs|apply code_range].
Qed.

Section Sealed.
Context {D : Type}.
Implicit Types (fields : list (Field D)) (data : D).

(** X5. A telegram sealed with the CRC of its own bytes always passes
    framing and checksum: for a body without [!], the buffer made of
    [/], the body, [!], the four hexadecimal digits (upper or lower
    case) of the CRC16 of those bytes, and any trailing bytes, is parsed
    with the outcome and the registry of [parse_data] on the body, and
    the cursor is left just after the four digits. *)
Theorem sealed_telegram_reaches_payload fields data
    (body extra : list ascii) (upper : bool) :
  Forall (λ c, c ≠ "!"%char) body →
  let sealed := "/"%char :: body ++ ["!"%char] in
  let buf := sealed ++ hex4 upper (crc16_fold 0 sealed) ++ extra in
  P1Parser.parse fields data buf
  = (set_next (fst (P1Parser.parse_data fields buf 1 (S (length body)) data))
              (Some (length body + 6)),
     snd (P1Parser.parse_data fields buf 1 (S (length body)) data)).
Proof.
  intros Hbody sealed buf.
  assert (Hlen : length sealed = S (S (length body))).
  { subst sealed. cbn. rewrite length_app. cbn. lia. }
  assert (Hsealed : ∀ i, i < length sealed → buf !! i = sealed !! i).
  { intros i Hi. subst buf. apply lookup_app_l. exact Hi. }
  assert (Hinner : ∀ j, sealed !! S j = (body ++ ["!"%char]) !! j)
    by reflexivity.
  assert (Hf : framed buf (S (length body))).
  { split; [reflexivity|]. split; [lia|]. split.
    - rewrite Hsealed by lia. rewrite Hinner.
      rewrite lookup_app_r by lia. rewrite Nat.sub_diag. reflexivity.
    - intros i Hi Hc. destruct i as [|i]; [lia|].
      rewrite Hsealed in Hc by lia. rewrite Hinner in Hc.
      rewrite lookup_app_l in Hc by lia.
      apply (Forall_lookup_1 _ _ _ _ Hbody) in Hc. congruence. }
  rewrite (parse_framed _ _ _ _ Hf). unfold after_framing.
  assert (Hcrc : (0 ≤ crc16_fold 0 sealed < 65536)%Z).
  { apply (crc16_fold_range 0 sealed). lia. }
  assert (Hchk : CrcParser.parse buf (S (length body) + 1) (length buf)
                 = succeed (set_next (fresh 0%Z) (Some (S (length body) + 1 + 4)))
                           (crc16_fold 0 sealed)).
  { apply (CrcParser_hex4 upper); [exact Hcrc| |].
    - replace (S (length body) + 1) with (length sealed) by lia.
      apply holds_middle.
    - subst buf. rewrite !length_app. cbn [hex4 length]. lia. }
  rewrite Hchk. cbn [failed succeed set_next fresh err result next].
  assert (Htake : take (S (S (length body))) buf = sealed).
  { subst buf. apply take_app_length'. lia. }
  rewrite Htake. rewrite bool_decide_true by reflexivity. cbn [negb].
  destruct (P1Parser.parse_data fields buf 1 (S (length body)) data)
    as [res data'].
  cbn [fst snd]. do 3 f_equal. lia.
Qed.

End Sealed.

Lemma sealed_telegram_reaches_payload_witness :
  P1Parser.parse version_only ∅
    (chars ("/ISk5" ++ nl ++ "1-3:0.2.8(50)" ++ nl ++ "!1CBB/next"))
  = (set_next (fresh tt) (Some 27), <[version_id := chars "50"]> ∅).
Proof.
  apply (sealed_telegram_reaches_payload version_only ∅
           (chars ("ISk5" ++ nl ++ "1-3:0.2.8(50)" ++ nl)) (chars "/next") true).
  cbn [chars list_ascii_of_string append nl].
  repeat (apply List.Forall_cons; [discriminate|]). apply List.Forall_nil.
Defined.

(** ** StringParser: what an outcome tells *)

(** X6. When [StringParser::parse_string] succeeds on a range inside the
    buffer, the range starts with [(], the first [)] after it stands at
    some offset [close] inside the range, [next] is one past it, and the
    payload returned is the text between the two: its length lies
    within [min] and [max] and it contains no [)].  When it fails, it
    returns no payload and no cursor, and reports the start of the
    range. *)
Theorem parse_string_outcome (min max : nat) (buf : list ascii) (str end_ : nat) :
  end_ ≤ length buf →
  let r := StringParser.parse_string min max buf str end_ in
  (err r = None →
     ∃ close, str < close < end_
       ∧ deref buf str = "("%char ∧ deref buf close = ")"%char
       ∧ next r = Some (close + 1)
       ∧ result r = take (close - (str + 1)) (drop (str + 1) buf)
       ∧ min ≤ length (result r) ≤ max
       ∧ ∀ c, c ∈ result r → c ≠ ")"%char)
  ∧ (err r ≠ None → result r = [] ∧ next r = None ∧ ctx r = Some str).
Proof.
  intros Hbuf r. subst r. unfold StringParser.parse_string.
  destruct (bool_decide (end_ ≤ str) || negb (bool_decide (deref buf str = "("%char)))
    eqn:Hopen; [split; [intros H; discriminate H|intros _; repeat split]|].
  apply orb_false_elim in Hopen as [Hlt Hpar].
  apply bool_decide_eq_false in Hlt. apply negb_false_iff in Hpar.
  apply bool_decide_eq_true in Hpar.
  destruct (find_close_spec buf (end_ - (str + 1)) (str + 1)) as (Hj & Hno & Hat).
  set (j := StringParser.find_close buf (end_ - (str + 1)) (str + 1)) in *.
  case_bool_decide as Hje; [split; [intros H; discriminate H|intros _; repeat split]|].
  destruct (bool_decide (j - (str + 1) < min) || bool_decide (max < j - (str + 1)))
    eqn:Hlen; [split; [intros H; discriminate H|intros _; repeat split]|].
  apply orb_false_elim in Hlen as [Hmin Hmax].
  apply bool_decide_eq_false in Hmin, Hmax.
  split; [intros _|intros H; exfalso; apply H; reflexivity].
  exists j. cbn. unfold concat_hack. cbn.
  assert (Hl : length (take (j - (str + 1)) (drop (str + 1) buf)) = j - (str + 1)).
  { rewrite length_take, length_drop. lia. }
  repeat split; try lia; try assumption.
  - apply Hat. lia.
  - intros c Hc Heq. apply list_elem_of_lookup in Hc as [i Hi].
    pose proof (lookup_lt_Some _ _ _ Hi) as Hil. rewrite Hl in Hil.
    rewrite lookup_take_lt in Hi by exact Hil. rewrite lookup_drop in Hi.
    apply (Hno (str + 1 + i)); [lia|]. rewrite (deref_lookup _ _ _ Hi). exact Heq.
Qed.

Lemma parse_string_outcome_witness :
  let r := StringParser.parse_string 2 4 (chars "(50)X") 0 5 in
  ∃ close, 0 < close < 5
    ∧ deref (chars "(50)X") 0 = "("%char ∧ deref (chars "(50)X") close = ")"%char
    ∧ next r = Some (close + 1)
    ∧ result r = take (close - (0 + 1)) (drop (0 + 1) (chars "(50)X"))
    ∧ 2 ≤ length (result r) ≤ 4
    ∧ ∀ c, c ∈ result r → c ≠ ")"%char.
Proof.
  destruct (parse_string_outcome 2 4 (chars "(50)X") 0 5) as (Hok & _).
  - cbn. lia.
  - apply Hok. reflexivity.
Defined.

(** ** ParsedData: which field a line goes to *)

Section FirstMatch.
Context {D : Type}.

(** X7. The dispatch goes to the first field, in the order of the
    registry, whose id equals the id of the line: it returns what that
    field's parse routine returns, and no field after it is tried, also
    when a later field has the same id. *)
Theorem dispatch_first_match (before after : list (Field D)) (T : Field D)
    (id : ObisId) (buf : list ascii) (str end_ : nat) (data : D) :
  (∀ T', T' ∈ before → field_id T' ≠ id) →
  field_id T = id →
  ParsedData.parse_line (before ++ T :: after) id buf str end_ data
  = field_parse T buf str end_ data.
Proof.
  intros Hno Hid. induction before as [|T' before IH]; cbn [app ParsedData.parse_line].
  - rewrite bool_decide_true by congruence. reflexivity.
  - rewrite bool_decide_false.
    + apply IH. intros T'' HT''. apply Hno. right. exact HT''.
    + intros Heq. apply (Hno T'); [left|congruence].
Qed.

End FirstMatch.

Lemma dispatch_first_match_witness :
  ParsedData.parse_line
    ([text_field ident_id 0 20] ++ text_field version_id 0 10
       :: [text_field version_id 5 10])
    version_id (chars "1-3:0.2.8(50)") 9 13 ∅
  = (until (fresh tt) 13, <[version_id := chars "50"]> ∅).
Proof.
  apply (dispatch_first_match [text_field ident_id 0 20]
           [text_field version_id 5 10] (text_field version_id 0 10)
           version_id (chars "1-3:0.2.8(50)") 9 13 ∅).
  - intros T' HT'. apply list_elem_of_singleton in HT'. subst T'.
    cbn. discriminate.
  - reflexivity.
Defined.

(** ** P1Parser: the cursor, the identification line and the lines *)

Lemma CrcParser_success (buf : list ascii) (str end_ : nat) :
  failed (CrcParser.parse buf str end_) = false →
  next (CrcParser.parse buf str end_) = Some (str + 4) ∧ str + 4 ≤ end_.
Proof.
  unfold CrcParser.parse, CrcParser.CRC_LEN.
  case_bool_decide as Hshort; [intros H; discriminate H|].
  destruct (strtoul16 _) as [value endp].
  destruct (negb _); [intros H; discriminate H|].
  intros _. split; [reflexivity|lia].
Qed.

Lemma CrcParser_failure (buf : list ascii) (str end_ : nat) :
  failed (CrcParser.parse buf str end_) = true →
  next (CrcParser.parse buf str end_) = None.
Proof.
  unfold CrcParser.parse, CrcParser.CRC_LEN.
  case_bool_decide as Hshort; [reflexivity|].
  destruct (strtoul16 _) as [value endp].
  destruct (negb _); [reflexivity|]. intros H. discriminate H.
Qed.

Section Cursor.
Context {D : Type}.
Implicit Types (fields : list (Field D)) (data : D) (buf : list ascii).

(** X8. The cursor that [P1Parser::parse] returns is set exactly when
    framing and checksum have passed, whether the payload then parses or
    fails: it is then the offset just after the four checksum
    characters, inside the buffer.  A parse without error always
    returns it; a framing or checksum failure returns none. *)
Theorem parse_cursor fields data buf :
  let r := fst (P1Parser.parse fields data buf) in
  (∀ p, next r = Some p
        ↔ ∃ e, framed buf e ∧ p = e + 5
            ∧ failed (CrcParser.parse buf (e + 1) (length buf)) = false
            ∧ result (CrcParser.parse buf (e + 1) (length buf))
              = crc16_fold 0 (take (S e) buf))
  ∧ (∀ p, next r = Some p → p ≤ length buf)
  ∧ (failed r = false → ∃ p, next r = Some p).
Proof.
  intros r. subst r.
  destruct (parse_cases fields data buf)
    as [(H0 & Heq)|[(_ & Hnobang & Heq)|(e & Hf & Heq)]]; rewrite Heq.
  - split; [|split; [intros p H; discriminate H|intros H; discriminate H]].
    intros p. split; [intros H; discriminate H|].
    intros (e & (H0' & _) & _). contradiction.
  - split; [|split; [intros p H; discriminate H|intros H; discriminate H]].
    intros p. split; [intros H; discriminate H|].
    intros (e & (_ & Hpos & He & _) & _). exfalso. exact (Hnobang e Hpos He).
  - unfold after_framing.
    destruct (failed (CrcParser.parse buf (e + 1) (length buf))) eqn:Hc.
    { cbn [fst to_void next]. rewrite (CrcParser_failure _ _ _ Hc).
      split; [|split; [intros p H; discriminate H|]].
      - intros p. split; [intros H; discriminate H|].
        intros (e' & Hf' & _ & Hok & _).
        rewrite (framed_unique _ _ _ Hf' Hf) in Hok. congruence.
      - intros H. unfold failed in H, Hc. cbn in H. rewrite H in Hc.
        discriminate Hc. }
    destruct (CrcParser_success _ _ _ Hc) as (Hnext & Hend).
    case_bool_decide as Hcrc; cbn [negb].
    2:{ split; [|split; [intros p H; discriminate H|intros H; discriminate H]].
        intros p. split; [intros H; discriminate H|].
        intros (e' & Hf' & _ & _ & Hres).
        rewrite (framed_unique _ _ _ Hf' Hf) in Hres. contradiction. }
    destruct (P1Parser.parse_data fields buf 1 e data) as [res data'].
    cbn [fst set_next next]. rewrite Hnext.
    split; [|split].
    + intros p. split.
      * intros [= <-]. exists e. repeat split; try apply Hf; try lia; assumption.
      * intros (e' & Hf' & -> & _).
        rewrite (framed_unique _ _ _ Hf' Hf). f_equal. lia.
    + intros p [= <-]. lia.
    + intros _. eexists. reflexivity.
Qed.

End Cursor.

Section Lines.
Context {D : Type}.
Implicit Types (fields : list (Field D)) (data : D) (buf : list ascii).

(** The first loop of [parse_data] runs up to the first line terminator
    and there checks and dispatches the identification line. *)
Lemma id_line_at_eol fields buf (fuel line_start line_end t : nat) data :
  line_end ≤ t < line_end + fuel →
  is_eol (deref buf t) = true →
  (∀ i, line_end ≤ i < t → is_eol (deref buf i) = false) →
  P1Parser.id_line fields buf fuel line_start line_end data
  = if bool_decide (t ≤ line_start + 3)
       || (negb (bool_decide (deref buf (line_start + 3) = "5"%char))
           && negb (bool_decide (deref buf (line_start + 3) = "3"%char)))
    then Return (fail (fresh tt) "Invalid identification string" (Some line_start),
                 data)
    else
      let '(tmp, data') :=
        ParsedData.parse_line fields ident_id buf line_start t data in
      if failed tmp then Return (tmp, data') else Done (S t, S t, data').
Proof.
  revert line_end. induction fuel as [|fuel IH]; intros line_end Ht Heol Hno;
    [lia|].
  cbn [P1Parser.id_line].
  destruct (decide (line_end = t)) as [->|Hne].
  - rewrite Heol. reflexivity.
  - rewrite Hno by lia. apply IH; [lia|exact Heol|].
    intros i Hi. apply Hno. lia.
Qed.

(** The second loop of [parse_data] is [parse_line] on one line after
    the other, a line for each line terminator. *)
Lemma data_lines_fold fields buf (fuel line_start line_end : nat) data :
  P1Parser.data_lines fields buf fuel line_start line_end data
  = match fold_lines fields buf line_start
            (List.filter (λ i, is_eol (deref buf i)) (seq line_end fuel)) data with
    | Return r => Return r
    | Done (line_start', data') => Done (line_start', line_end + fuel, data')
    end.
Proof.
  revert line_start line_end data.
  induction fuel as [|fuel IH]; intros line_start line_end data.
  - cbn. rewrite Nat.add_0_r. reflexivity.
  - cbn [P1Parser.data_lines seq List.filter].
    destruct (is_eol (deref buf line_end)).
    + cbn [fold_lines].
      destruct (P1Parser.parse_line fields buf line_start line_end data)
        as [tmp data'].
      destruct (failed tmp); [reflexivity|].
      rewrite IH. destruct (fold_lines _ _ _ _ _) as [r|[ls d]]; [reflexivity|].
      do 3 f_equal. lia.
    + rewrite IH. destruct (fold_lines _ _ _ _ _) as [r|[ls d]]; [reflexivity|].
      do 3 f_equal. lia.
Qed.

(** X9. A payload whose first line, up to its terminator, has fewer
    than four characters, or whose fourth character is neither [5] nor
    [3], is rejected by [parse_data] with "Invalid identification
    string", reported at the start of the payload; no field is tried
    and the registry is returned as it was. *)
Theorem invalid_identification_rejected fields buf (str end_ t : nat) data :
  first_eol buf str end_ t →
  t ≤ str + 3
  ∨ (deref buf (str + 3) ≠ "5"%char ∧ deref buf (str + 3) ≠ "3"%char) →
  P1Parser.parse_data fields buf str end_ data
  = (fail (fresh tt) "Invalid identification string" (Some str), data).
Proof.
  intros (Ht & Heol & Hno) Hbad. unfold P1Parser.parse_data.
  rewrite (id_line_at_eol fields buf (end_ - str) str str t data)
    by (try lia; assumption).
  destruct Hbad as [Hshort|(H5 & H3)].
  - rewrite bool_decide_true by exact Hshort. reflexivity.
  - rewrite (bool_decide_false (deref buf (str + 3) = "5"%char)) by exact H5.
    rewrite (bool_decide_false (deref buf (str + 3) = "3"%char)) by exact H3.
    rewrite orb_true_r. reflexivity.
Qed.

(** X10. How [parse_data] is put together.  On a payload whose first
    line ends at [t], has at least four characters and has [5] or [3]
    as the fourth, the line is offered to the registry under the
    all-ones id; unless that fails, [parse_line] runs on the lines that
    follow, one for each later line terminator and in their order, each
    line starting just after the terminator before it, up to the first
    error; and at the end everything after the last terminator must be
    empty, or the parse fails with "Last dataline not CRLF terminated"
    reported at the start of the unterminated rest. *)
Theorem parse_data_by_lines fields buf (str end_ t : nat) data :
  first_eol buf str end_ t →
  str + 3 < t →
  deref buf (str + 3) = "5"%char ∨ deref buf (str + 3) = "3"%char →
  P1Parser.parse_data fields buf str end_ data
  = let '(tmp, data1) := ParsedData.parse_line fields ident_id buf str t data in
    if failed tmp then (tmp, data1)
    else
      match fold_lines fields buf (S t)
              (List.filter (λ i, is_eol (deref buf i)) (seq (S t) (end_ - S t)))
              data1 with
      | Return r => r
      | Done (rest, data2) =>
          if bool_decide (rest = end_) then (fresh tt, data2)
          else (fail (fresh tt) "Last dataline not CRLF terminated" (Some rest),
                data2)
      end.
Proof.
  intros (Ht & Heol & Hno) Hlen Hmark. unfold P1Parser.parse_data.
  rewrite (id_line_at_eol fields buf (end_ - str) str str t data)
    by (try lia; assumption).
  rewrite bool_decide_false by lia.
  assert (Hm : negb (bool_decide (deref buf (str + 3) = "5"%char))
               && negb (bool_decide (deref buf (str + 3) = "3"%char)) = false).
  { destruct Hmark as [H|H]; rewrite (bool_decide_true _ H);
      [reflexivity|apply andb_false_r]. }
  rewrite Hm. cbn [orb].
  destruct (ParsedData.parse_line fields ident_id buf str t data) as [tmp data1].
  destruct (failed tmp); [reflexivity|].
  rewrite data_lines_fold.
  destruct (fold_lines _ _ _ _ _) as [r|[rest data2]]; [reflexivity|].
  replace (S t + (end_ - S t)) with end_ by lia.
  destruct (decide (rest = end_)) as [Heq|Hne].
  - rewrite (bool_decide_true _ Heq).
    rewrite bool_decide_true by congruence. reflexivity.
  - rewrite (bool_decide_false _ Hne).
    rewrite bool_decide_false by congruence. reflexivity.
Qed.

End Lines.

Lemma eol_search (buf : list ascii) (fuel line_end : nat) :
  (∀ i, line_end ≤ i < line_end + fuel → is_eol (deref buf i) = false)
  ∨ ∃ t, first_eol buf line_end (line_end + fuel) t.
Proof.
  revert line_end. induction fuel as [|fuel IH]; intros line_end.
  - left. intros i Hi. lia.
  - destruct (is_eol (deref buf line_end)) eqn:Heol.
    + right. exists line_end.
      split; [lia|split; [exact Heol|intros i Hi; lia]].
    + destruct (IH (S line_end)) as [Hno|(t & Ht & Het & Hbefore)].
      * left. intros i Hi.
        destruct (decide (i = line_end)) as [->|Hne]; [exact Heol|].
        apply Hno. lia.
      * right. exists t. split; [lia|split; [exact Het|]].
        intros i Hi.
        destruct (decide (i = line_end)) as [->|Hne]; [exact Heol|].
        apply Hbefore. lia.
Qed.

Section Terminated.
Context {D : Type}.
Implicit Types (fields : list (Field D)) (data : D) (buf : list ascii).

Lemma fold_lines_rest fields buf (line_start : nat) (ends : list nat) data
    (rest : nat) (data' : D) :
  fold_lines fields buf line_start ends data = Done (rest, data') →
  rest = match last ends with Some e => e + 1 | None => line_start end.
Proof.
  revert line_start data. induction ends as [|e ends IH]; intros line_start data.
  - cbn. intros [= <- _]. reflexivity.
  - cbn [fold_lines].
    destruct (P1Parser.parse_line fields buf line_start e data) as [tmp d].
    destruct (failed tmp); [intros H; discriminate H|].
    intros H. apply IH in H.
    destruct ends as [|e' ends]; [exact H|].
    change (last (e :: e' :: ends)) with (last (e' :: ends)).
    destruct (last (e' :: ends)) eqn:Hl; [exact H|].
    apply last_None in Hl. discriminate Hl.
Qed.

(** X11. [parse_data] never accepts an unterminated last line nor a
    payload without a valid identification line: when it returns
    without error on a range with [str <= end], either the payload is
    empty, or its last character is a line terminator and its first
    line has at least four characters, the fourth being [5] or [3]. *)
Theorem parse_data_success_shape fields buf (str end_ : nat) data :
  str ≤ end_ →
  failed (fst (P1Parser.parse_data fields buf str end_ data)) = false →
  end_ = str
  ∨ (is_eol (deref buf (end_ - 1)) = true
     ∧ ∃ t, first_eol buf str end_ t ∧ str + 3 < t
         ∧ (deref buf (str + 3) = "5"%char ∨ deref buf (str + 3) = "3"%char)).
Proof.
  intros Hle Hok.
  destruct (eol_search buf (end_ - str) str) as [Hno|(t & Hfirst)].
  - rewrite parse_data_no_eol in Hok
      by (try lia; intros i Hi; apply Hno; lia).
    destruct (decide (end_ = str)) as [Heq|Hne]; [left; exact Heq|].
    discriminate Hok.
  - replace (str + (end_ - str)) with end_ in Hfirst by lia.
    right. destruct Hfirst as (Ht & Heol & Hbefore).
    unfold P1Parser.parse_data in Hok.
    rewrite (id_line_at_eol fields buf (end_ - str) str str t data) in Hok
      by (try lia; assumption).
    destruct (bool_decide (t ≤ str + 3)
              || (negb (bool_decide (deref buf (str + 3) = "5"%char))
                  && negb (bool_decide (deref buf (str + 3) = "3"%char))))
      eqn:Hcheck; [discriminate Hok|].
    apply orb_false_elim in Hcheck as [Hlen Hmark].
    apply bool_decide_eq_false in Hlen.
    assert (Hm : deref buf (str + 3) = "5"%char ∨ deref buf (str + 3) = "3"%char).
    { apply andb_false_iff in Hmark as [H|H]; apply negb_false_iff in H;
        apply bool_decide_eq_true in H; [left|right]; exact H. }
    assert (Hlast : is_eol (deref buf (end_ - 1)) = true).
    { destruct (ParsedData.parse_line fields ident_id buf str t data)
        as [tmp data1].
      destruct (failed tmp) eqn:Htmp; [cbn in Hok; congruence|].
      rewrite data_lines_fold in Hok.
      destruct (fold_lines fields buf (S t) _ data1) as [[r d]|[rest data2]]
        eqn:Hfold.
      - (* the error of a line is returned *)
        revert Hfold Hok. generalize (S t) at 1 as ls.
        generalize (List.filter (λ i, is_eol (deref buf i))
                      (seq (S t) (end_ - S t))) as ends.
        intros ends. revert data1.
        induction ends as [|e ends IH]; intros data1 ls Hfold Hok;
          [discriminate Hfold|].
        cbn [fold_lines] in Hfold.
        destruct (P1Parser.parse_line fields buf ls e data1) as [tmp' d'].
        destruct (failed tmp') eqn:Hf'.
        + injection Hfold as <- <-. cbn in Hok. congruence.
        + exact (IH _ _ Hfold Hok).
      - apply fold_lines_rest in Hfold.
        case_bool_decide as Hend; cbn [negb] in Hok; [|discriminate Hok].
        replace (S t + (end_ - S t)) with end_ in Hend by lia.
        destruct (last _) as [e|] eqn:Hl.
        + apply last_Some in Hl as [l' Hl].
          assert (Hin : In e (List.filter (λ i, is_eol (deref buf i))
                                (seq (S t) (end_ - S t)))).
          { rewrite Hl. apply in_or_app. right. left. reflexivity. }
          apply filter_In in Hin as [_ He].
          replace (end_ - 1) with e by lia. exact He.
        + replace (end_ - 1) with t by lia. exact Heol. }
    split; [exact Hlast|]. exists t. repeat split; try lia; assumption.
Qed.

End Terminated.

(** ** P1Parser: bytes after the checksum *)

Lemma agree_app (buf extra : list ascii) : agree (buf ++ extra) buf (length buf).
Proof.
  intros i Hi. unfold deref. rewrite lookup_app_l by exact Hi. reflexivity.
Qed.

Lemma scan_agree (b1 b2 : list ascii) (e fuel : nat) id part pos :
  agree b1 b2 e → pos + fuel ≤ e →
  ObisIdParser.scan b1 fuel id part pos = ObisIdParser.scan b2 fuel id part pos.
Proof.
  intros Ha. revert id part pos.
  induction fuel as [|fuel IH]; intros id part pos Hle; [reflexivity|].
  cbn [ObisIdParser.scan]. rewrite (Ha pos) by lia.
  destruct (ObisIdParser.step _ _ _); try reflexivity. apply IH. lia.
Qed.

Lemma ObisIdParser_agree (b1 b2 : list ascii) (e str end_ : nat) :
  agree b1 b2 e → end_ ≤ e →
  ObisIdParser.parse b1 str end_ = ObisIdParser.parse b2 str end_.
Proof.
  intros Ha Hle. unfold ObisIdParser.parse.
  destruct (decide (str ≤ end_)) as [Hs|Hs].
  - rewrite (scan_agree b1 b2 e) by (try assumption; lia). reflexivity.
  - replace (end_ - str) with 0 by lia. reflexivity.
Qed.

Section Trailing.
Context {D : Type}.
Implicit Types (fields : list (Field D)) (data : D).

Variables (b1 b2 : list ascii) (e : nat).
Hypothesis Hagree : agree b1 b2 e.

Lemma dispatch_agree fields (id : ObisId) (str end_ : nat) data :
  buffer_local fields b1 b2 e → end_ ≤ e →
  ParsedData.parse_line fields id b1 str end_ data
  = ParsedData.parse_line fields id b2 str end_ data.
Proof.
  intros Hlocal Hle.
  assert (Hsub : ∀ T, T ∈ fields → T ∈ fields) by auto.
  revert Hsub. generalize fields at 1 3 4 as fs.
  induction fs as [|T Ts IH]; intros Hsub; [reflexivity|].
  cbn [ParsedData.parse_line]. case_bool_decide.
  - apply Hlocal; [apply Hsub; left|exact Hle].
  - apply IH. intros T' HT'. apply Hsub. right. exact HT'.
Qed.

Lemma parse_line_agree fields (line end_ : nat) data :
  buffer_local fields b1 b2 e → end_ ≤ e →
  P1Parser.parse_line fields b1 line end_ data
  = P1Parser.parse_line fields b2 line end_ data.
Proof.
  intros Hlocal Hle. unfold P1Parser.parse_line.
  rewrite (ObisIdParser_agree b1 b2 e line end_ Hagree Hle).
  case_bool_decide; [reflexivity|].
  destruct (failed _); [reflexivity|].
  destruct (next _) as [idnext|]; [|reflexivity].
  rewrite (dispatch_agree fields _ idnext end_ data Hlocal Hle). reflexivity.
Qed.

Lemma id_line_agree fields (fuel line_start line_end : nat) data :
  buffer_local fields b1 b2 e → line_end + fuel ≤ e →
  P1Parser.id_line fields b1 fuel line_start line_end data
  = P1Parser.id_line fields b2 fuel line_start line_end data.
Proof.
  intros Hlocal. revert line_end.
  induction fuel as [|fuel IH]; intros line_end Hle; [reflexivity|].
  cbn [P1Parser.id_line]. rewrite (Hagree line_end) by lia.
  destruct (is_eol _); [|apply IH; lia].
  case_bool_decide as Hshort; [reflexivity|].
  rewrite (Hagree (line_start + 3)) by lia. cbn [orb].
  destruct (_ && _); [reflexivity|].
  rewrite (dispatch_agree fields ident_id line_start line_end data Hlocal)
    by lia.
  reflexivity.
Qed.

Lemma data_lines_agree fields (fuel line_start line_end : nat) data :
  buffer_local fields b1 b2 e → line_end + fuel ≤ e →
  P1Parser.data_lines fields b1 fuel line_start line_end data
  = P1Parser.data_lines fields b2 fuel line_start line_end data.
Proof.
  intros Hlocal. revert line_start line_end data.
  induction fuel as [|fuel IH]; intros line_start line_end data Hle;
    [reflexivity|].
  cbn [P1Parser.data_lines]. rewrite (Hagree line_end) by lia.
  destruct (is_eol _); [|apply IH; lia].
  rewrite (parse_line_agree fields line_start line_end data Hlocal) by lia.
  destruct (P1Parser.parse_line _ _ _ _ _) as [tmp data'].
  destruct (failed tmp); [reflexivity|]. apply IH. lia.
Qed.

Lemma id_line_done_bound fields (buf : list ascii)
    (fuel line_start line_end : nat) data (ls le : nat) (d : D) :
  P1Parser.id_line fields buf fuel line_start line_end data = Done (ls, le, d) →
  le ≤ line_end + fuel.
Proof.
  revert line_end. induction fuel as [|fuel IH]; intros line_end Hid.
  - cbn in Hid. injection Hid as <- <- <-. lia.
  - cbn [P1Parser.id_line] in Hid.
    destruct (is_eol _).
    + destruct (_ || _); [discriminate Hid|].
      destruct (ParsedData.parse_line _ _ _ _ _ _) as [tmp d'].
      destruct (failed tmp); [discriminate Hid|].
      injection Hid as <- <- <-. lia.
    + apply IH in Hid. lia.
Qed.

Lemma parse_data_agree fields (str end_ : nat) data :
  buffer_local fields b1 b2 e → str ≤ end_ ≤ e →
  P1Parser.parse_data fields b1 str end_ data
  = P1Parser.parse_data fields b2 str end_ data.
Proof.
  intros Hlocal Hle. unfold P1Parser.parse_data.
  rewrite (id_line_agree fields (end_ - str) str str data Hlocal) by lia.
  destruct (P1Parser.id_line fields b2 (end_ - str) str str data)
    as [r|[[ls le] d]] eqn:Hid; [reflexivity|].
  apply id_line_done_bound in Hid.
  rewrite (data_lines_agree fields (end_ - le) ls le d Hlocal) by lia.
  reflexivity.
Qed.

End Trailing.

Section Ignored.
Context {D : Type}.
Implicit Types (fields : list (Field D)) (data : D).

(** X12. It is fine if the buffer is longer than the telegram: for a
    telegram that is framed and has its four checksum characters, and
    fields that read the buffer only inside the range they are given,
    bytes appended after the checksum change neither the result of
    [P1Parser::parse] nor the registry it leaves. *)
Theorem trailing_bytes_ignored fields data (buf extra : list ascii) (e : nat) :
  framed buf e →
  e + 5 ≤ length buf →
  buffer_local fields (buf ++ extra) buf e →
  P1Parser.parse fields data (buf ++ extra) = P1Parser.parse fields data buf.
Proof.
  intros Hf Hlen Hlocal.
  assert (Ha : agree (buf ++ extra) buf (length buf)) by apply agree_app.
  assert (Hf' : framed (buf ++ extra) e).
  { destruct Hf as (H0 & Hpos & He & Hno).
    pose proof (lookup_lt_Some _ _ _ H0) as Hl0.
    repeat split.
    - rewrite lookup_app_l by lia. exact H0.
    - lia.
    - rewrite lookup_app_l by lia. exact He.
    - intros i Hi. rewrite lookup_app_l by lia. apply Hno. exact Hi. }
  rewrite (parse_framed _ _ _ _ Hf), (parse_framed _ _ _ _ Hf').
  unfold after_framing.
  assert (Hcrc : CrcParser.parse (buf ++ extra) (e + 1) (length (buf ++ extra))
                 = CrcParser.parse buf (e + 1) (length buf)).
  { unfold CrcParser.parse, CrcParser.CRC_LEN.
    rewrite !bool_decide_false by (rewrite ?length_app; lia).
    cbn [seq map]. rewrite !Ha by lia. reflexivity. }
  rewrite Hcrc. rewrite take_app_le by lia.
  assert (Hpos : 0 < e) by apply Hf.
  rewrite (parse_data_agree (buf ++ extra) buf e);
    [reflexivity| |exact Hlocal|lia].
  intros i Hi. apply Ha. lia.
Qed.

End Ignored.

Lemma find_close_agree (b1 b2 : list ascii) (e fuel pos : nat) :
  agree b1 b2 e → pos + fuel ≤ e →
  StringParser.find_close b1 fuel pos = StringParser.find_close b2 fuel pos.
Proof.
  intros Ha. revert pos. induction fuel as [|fuel IH]; intros pos Hle;
    [reflexivity|].
  cbn [StringParser.find_close]. rewrite (Ha pos) by lia.
  case_bool_decide; [reflexivity|]. apply IH. lia.
Qed.

(** [StringParser::parse_string] reads the buffer only inside its
    range. *)
Lemma parse_string_app (min max : nat) (buf extra : list ascii) (str end_ : nat) :
  end_ ≤ length buf →
  StringParser.parse_string min max (buf ++ extra) str end_
  = StringParser.parse_string min max buf str end_.
Proof.
  intros Hend. unfold StringParser.parse_string.
  pose proof (agree_app buf extra) as Ha.
  destruct (decide (end_ ≤ str)) as [Hle|Hgt].
  { rewrite !bool_decide_true by exact Hle. reflexivity. }
  rewrite (Ha str) by lia.
  destruct (_ || _); [reflexivity|].
  rewrite (find_close_agree (buf ++ extra) buf (length buf)) by (try exact Ha; lia).
  destruct (find_close_spec buf (end_ - (str + 1)) (str + 1)) as (Hj & _).
  set (j := StringParser.find_close buf (end_ - (str + 1)) (str + 1)) in *.
  case_bool_decide; [reflexivity|].
  destruct (_ || _); [reflexivity|].
  unfold concat_hack. rewrite drop_app_le by lia.
  rewrite take_app_le by (rewrite length_drop; lia). reflexivity.
Qed.

Lemma text_field_local (id : ObisId) (min max : nat) (buf extra : list ascii)
    (e : nat) :
  e ≤ length buf →
  buffer_local [text_field id min max] (buf ++ extra) buf e.
Proof.
  intros He T str end_ data HT Hend.
  apply list_elem_of_singleton in HT. subst T.
  unfold text_field. cbn [field_parse].
  rewrite parse_string_app by lia. reflexivity.
Qed.

Lemma trailing_bytes_ignored_witness :
  P1Parser.parse version_only ∅ ((telegram_ok ++ chars "1CBB") ++ chars "/next")
  = P1Parser.parse version_only ∅ (telegram_ok ++ chars "1CBB").
Proof.
  apply (trailing_bytes_ignored version_only ∅ (telegram_ok ++ chars "1CBB")
           (chars "/next") 22).
  - apply telegram_ok_framed.
  - vm_compute. lia.
  - apply text_field_local. vm_compute. lia.
Defined.

Lemma invalid_identification_rejected_witness :
  P1Parser.parse_data version_only (chars ("/ISk" ++ nl ++ "!")) 1 6 ∅
  = (fail (fresh tt) "Invalid identification string" (Some 1), ∅).
Proof.
  apply (invalid_identification_rejected version_only
           (chars ("/ISk" ++ nl ++ "!")) 1 6 4 ∅).
  - split; [lia|]. split; [reflexivity|]. intros i Hi. each_offset i.
  - left. lia.
Defined.

Lemma parse_data_by_lines_witness :
  P1Parser.parse_data version_only telegram_unterminated 1 23 ∅
  = (fail (fresh tt) "Last dataline not CRLF terminated" (Some 22),
     <[version_id := chars "50"]> ∅).
Proof.
  rewrite (parse_data_by_lines version_only telegram_unterminated 1 23 5 ∅).
  - vm_compute. reflexivity.
  - split; [lia|]. split; [reflexivity|]. intros i Hi. each_offset i.
  - lia.
  - left. reflexivity.
Defined.

Lemma parse_data_success_shape_witness :
  is_eol (deref telegram_ok (22 - 1)) = true
  ∧ ∃ t, first_eol telegram_ok 1 22 t ∧ 1 + 3 < t
      ∧ (deref telegram_ok (1 + 3) = "5"%char
         ∨ deref telegram_ok (1 + 3) = "3"%char).
Proof.
  destruct (parse_data_success_shape version_only telegram_ok 1 22 ∅)
    as [Hempty|Hshape].
  - lia.
  - vm_compute. reflexivity.
  - lia.
  - exact Hshape.
Defined.

(** ** The registry that a parse leaves, error or not *)

Section LeftBehind.
Context {D : Type}.
Implicit Types (fields : list (Field D)) (data : D) (buf : list ascii).

Lemma fold_lines_app fields buf (line_start : nat) (ends1 ends2 : list nat) data :
  fold_lines fields buf line_start (ends1 ++ ends2) data
  = match fold_lines fields buf line_start ends1 data with
    | Return r => Return r
    | Done (line_start', data') => fold_lines fields buf line_start' ends2 data'
    end.
Proof.
  revert line_start data.
  induction ends1 as [|e ends1 IH]; intros line_start data; [reflexivity|].
  cbn [app fold_lines].
  destruct (P1Parser.parse_line fields buf line_start e data) as [tmp d].
  destruct (failed tmp); [reflexivity|]. apply IH.
Qed.

(** Once framing and checksum have passed, the result of [parse] is the
    result of [parse_data] with the cursor set, and its registry is the
    registry of [parse_data], error or not. *)
Lemma parse_after_checksum fields data buf (e : nat) :
  framed buf e →
  failed (CrcParser.parse buf (e + 1) (length buf)) = false →
  result (CrcParser.parse buf (e + 1) (length buf))
  = crc16_fold 0 (take (S e) buf) →
  P1Parser.parse fields data buf
  = (set_next (fst (P1Parser.parse_data fields buf 1 e data)) (Some (e + 5)),
     snd (P1Parser.parse_data fields buf 1 e data)).
Proof.
  intros Hf Hok Hcrc. rewrite (parse_framed _ _ _ _ Hf). unfold after_framing.
  rewrite Hok. rewrite bool_decide_true by exact Hcrc. cbn [negb].
  destruct (CrcParser_success _ _ _ Hok) as (Hnext & _). rewrite Hnext.
  destruct (P1Parser.parse_data fields buf 1 e data) as [res data'].
  cbn [fst snd]. do 3 f_equal. lia.
Qed.

(** [parse_data] on a payload with a valid identification line, as the
    dispatch of that line followed by the lines after it. *)
Lemma parse_data_lines fields buf (str end_ t : nat) data :
  first_eol buf str end_ t →
  str + 3 < t →
  deref buf (str + 3) = "5"%char ∨ deref buf (str + 3) = "3"%char →
  P1Parser.parse_data fields buf str end_ data
  = let '(tmp, data1) := ParsedData.parse_line fields ident_id buf str t data in
    if failed tmp then (tmp, data1)
    else
      match fold_lines fields buf (S t)
              (List.filter (λ i, is_eol (deref buf i)) (seq (S t) (end_ - S t)))
              data1 with
      | Return r => r
      | Done (rest, data2) =>
          if bool_decide (rest = end_) then (fresh tt, data2)
          else (fail (fresh tt) "Last dataline not CRLF terminated" (Some rest),
                data2)
      end.
Proof.
  intros (Ht & Heol & Hno) Hlen Hmark. unfold P1Parser.parse_data.
  rewrite (id_line_at_eol fields buf (end_ - str) str str t data)
    by (try lia; assumption).
  rewrite bool_decide_false by lia.
  assert (Hm : negb (bool_decide (deref buf (str + 3) = "5"%char))
               && negb (bool_decide (deref buf (str + 3) = "3"%char)) = false).
  { destruct Hmark as [H|H]; rewrite (bool_decide_true _ H);
      [reflexivity|apply andb_false_r]. }
  rewrite Hm. cbn [orb].
  destruct (ParsedData.parse_line fields ident_id buf str t data) as [tmp data1].
  destruct (failed tmp); [reflexivity|].
  rewrite data_lines_fold.
  destruct (fold_lines _ _ _ _ _) as [r|[rest data2]]; [reflexivity|].
  replace (S t + (end_ - S t)) with end_ by lia.
  destruct (decide (rest = end_)) as [Heq|Hne].
  - rewrite (bool_decide_true _ Heq).
    rewrite bool_decide_true by congruence. reflexivity.
  - rewrite (bool_decide_false _ Hne).
    rewrite bool_decide_false by congruence. reflexivity.
Qed.

(** C8 (amended). [P1Parser::parse] does not roll the registry back:
    the registry it returns, with an error or without, is exactly the
    one the parse routines of the fields have produced up to the point
    where it returns.
    - A failure of framing or checksum returns the registry as given.
    - When framing and checksum have passed: a payload without a line
      terminator, and an invalid identification line, return the
      registry as given (no field has been tried); a failed dispatch of
      the identification line returns what that dispatch left; a data
      line that fails returns what [parse_line] on that line left,
      started from the registry the lines before it produced, so that
      whatever those lines stored and the parse routines preserve (a
      field being populated) is still there; and the final check for an
      unterminated last line returns the registry all the lines
      produced. *)
Theorem failed_parse_leaves_decoded fields data buf :
  let r := P1Parser.parse fields data buf in
  (buf !! 0 ≠ Some "/"%char
   ∨ (∀ i, 0 < i → buf !! i ≠ Some "!"%char)
   ∨ (∃ e, framed buf e
        ∧ (failed (CrcParser.parse buf (e + 1) (length buf)) = true
           ∨ result (CrcParser.parse buf (e + 1) (length buf))
             ≠ crc16_fold 0 (take (S e) buf))) →
   failed (fst r) = true ∧ snd r = data)
  ∧ ∀ e,
      framed buf e →
      failed (CrcParser.parse buf (e + 1) (length buf)) = false →
      result (CrcParser.parse buf (e + 1) (length buf))
      = crc16_fold 0 (take (S e) buf) →
      ((∀ i, 0 < i < e → is_eol (deref buf i) = false) → snd r = data)
      ∧ ∀ t tmp data1,
          first_eol buf 1 e t →
          ParsedData.parse_line fields ident_id buf 1 t data = (tmp, data1) →
          let ends :=
            List.filter (λ i, is_eol (deref buf i)) (seq (S t) (e - S t)) in
          let valid :=
            4 < t ∧ (deref buf 4 = "5"%char ∨ deref buf 4 = "3"%char) in
          (t ≤ 4 ∨ (deref buf 4 ≠ "5"%char ∧ deref buf 4 ≠ "3"%char) →
           r = (set_next (fail (fresh tt) "Invalid identification string" (Some 1))
                         (Some (e + 5)),
                data))
          ∧ (valid → failed tmp = true →
             r = (set_next tmp (Some (e + 5)), data1))
          ∧ (valid → failed tmp = false →
             ∀ before line_end after line_start data2 tmp' data3,
               ends = before ++ line_end :: after →
               fold_lines fields buf (S t) before data1
               = Done (line_start, data2) →
               P1Parser.parse_line fields buf line_start line_end data2
               = (tmp', data3) →
               failed tmp' = true →
               r = (set_next tmp' (Some (e + 5)), data3)
               ∧ ∀ Inv : D → Prop,
                   preserved Inv fields buf → Inv data2 → Inv data3)
          ∧ (valid → failed tmp = false →
             ∀ rest data2,
               fold_lines fields buf (S t) ends data1 = Done (rest, data2) →
               r = (set_next
                      (if bool_decide (rest = e) then fresh tt
                       else fail (fresh tt) "Last dataline not CRLF terminated"
                                 (Some rest))
                      (Some (e + 5)),
                    data2)).
Proof.
  intros r. split.
  { intros Hbad. subst r.
    destruct (parse_cases fields data buf)
      as [(_ & Heq)|[(_ & _ & Heq)|(e & Hf & Heq)]];
      rewrite Heq; try (split; reflexivity).
    destruct Hbad as [H0|[Hnobang|(e' & Hf' & Hchk)]].
    - destruct Hf as (H0' & _). contradiction.
    - destruct Hf as (_ & Hpos & He & _). exfalso. exact (Hnobang e Hpos He).
    - rewrite (framed_unique _ _ _ Hf' Hf) in Hchk.
      unfold after_framing. destruct Hchk as [Hfail|Hne].
      + rewrite Hfail. split; [|reflexivity]. exact Hfail.
      + destruct (failed (CrcParser.parse buf (e + 1) (length buf))) eqn:Hc.
        * split; [|reflexivity]. exact Hc.
        * rewrite bool_decide_false by exact Hne. split; reflexivity. }
  intros e Hf Hok Hcrc.
  assert (Hr : r = (set_next (fst (P1Parser.parse_data fields buf 1 e data))
                             (Some (e + 5)),
                    snd (P1Parser.parse_data fields buf 1 e data)))
    by (apply parse_after_checksum; assumption).
  assert (Hpos : 0 < e) by apply Hf.
  split.
  { intros Hno. rewrite Hr. cbn [snd].
    rewrite parse_data_no_eol by (try lia; intros i Hi; apply Hno; lia).
    reflexivity. }
  intros t tmp data1 Hfirst Hdisp ends valid.
  split; [|split; [|split]].
  - intros Hbad. rewrite Hr.
    destruct Hfirst as (Ht & Heol & Hbefore).
    unfold P1Parser.parse_data.
    rewrite (id_line_at_eol fields buf (e - 1) 1 1 t data)
      by (try lia; assumption).
    change (1 + 3) with 4.
    destruct Hbad as [Hshort|(H5 & H3)].
    + rewrite bool_decide_true by lia. reflexivity.
    + rewrite (bool_decide_false (deref buf 4 = "5"%char)) by exact H5.
      rewrite (bool_decide_false (deref buf 4 = "3"%char)) by exact H3.
      rewrite orb_true_r. reflexivity.
  - intros (Hlen & Hmark) Hfail. rewrite Hr.
    rewrite (parse_data_lines fields buf 1 e t data Hfirst) by (cbn; assumption).
    rewrite Hdisp, Hfail. reflexivity.
  - intros (Hlen & Hmark) Hfine before line_end after line_start data2 tmp' data3
           Hends Hbefore Hline Hfail.
    split.
    + rewrite Hr.
      rewrite (parse_data_lines fields buf 1 e t data Hfirst) by (cbn; assumption).
      rewrite Hdisp, Hfine. fold ends. rewrite Hends, fold_lines_app, Hbefore.
      cbn [fold_lines]. rewrite Hline, Hfail. reflexivity.
    + intros Inv Hpres Hinv.
      pose proof (parse_line_inv Inv fields buf line_start line_end data2
                    Hpres Hinv) as Hl.
      rewrite Hline in Hl. exact Hl.
  - intros (Hlen & Hmark) Hfine rest data2 Hfold. rewrite Hr.
    rewrite (parse_data_lines fields buf 1 e t data Hfirst) by (cbn; assumption).
    rewrite Hdisp, Hfine. fold ends. rewrite Hfold.
    destruct (bool_decide (rest = e)); reflexivity.
Qed.

End LeftBehind.

Lemma telegram_bad_line_framed (crc : string) :
  framed (telegram_bad_line ++ chars crc) 30.
Proof.
  repeat split; [lia|].
  intros i Hi. each_offset i.
Qed.

Lemma failed_parse_leaves_decoded_witness :
  let decoded : gmap (list Z) (list ascii) := <[version_id := chars "50"]> ∅ in
  P1Parser.parse version_only ∅ (telegram_bad_line ++ chars "E475")
  = (set_next (fail (set_next (fresh tt) (Some 22)) "OBIS id Empty" (Some 22))
              (Some 35),
     decoded)
  ∧ is_Some (decoded !! version_id).
Proof.
  intros decoded.
  destruct (failed_parse_leaves_decoded version_only ∅
              (telegram_bad_line ++ chars "E475")) as (_ & Hpayload).
  destruct (Hpayload 30 (telegram_bad_line_framed "E475")
              ltac:(vm_compute; reflexivity) ltac:(vm_compute; reflexivity))
    as (_ & Hlines).
  destruct (Hlines 5 (until (fresh tt) 1) ∅) as (_ & _ & Hline & _).
  - split; [lia|]. split; [reflexivity|]. intros i Hi. each_offset i.
  - reflexivity.
  - destruct (Hline ltac:(split; [lia|left; reflexivity]) eq_refl
                [6; 20; 21] 28 [29] 22 decoded
                (fail (set_next (fresh tt) (Some 22)) "OBIS id Empty" (Some 22))
                decoded)
      as (Hr & Hinv).
    + vm_compute. reflexivity.
    + vm_compute. reflexivity.
    + vm_compute. reflexivity.
    + reflexivity.
    + split; [exact Hr|].
      apply (Hinv (λ d, is_Some (d !! version_id))).
      * apply version_only_populated.
      * unfold decoded. rewrite lookup_insert_eq. eexists. reflexivity.
Defined.
